(** * ShrinkAnalyzer: importance scoring, candidate selection and deletion

    A shallow embedding of [src/services/worker/ShrinkAnalyzer.ts] and the
    properties its specification states about it.

    Modelling conventions.
    - A JavaScript number that takes part in the scoring arithmetic is a
      [jsnum]: an exact rational extended with [NaN], [+Infinity] and
      [-Infinity], with the IEEE 754 rules for the special values.  Rounding
      to binary64 and the sign of zero are not modelled.
    - Epoch timestamps, identifiers and row counts are integers ([Z], [nat]).
    - A JavaScript string is the list of its UTF-16 code units, so that
      [length] is the [.length] property.
    - The two weight tables are objects used as maps from strings to
      numbers: finite maps holding the listed (own) properties.
    - A [throw] is the [Throw] outcome of the error monad [outcome]. *)

From Stdlib Require Import ZArith QArith Qround Lqa Lia List String Ascii Bool.
From Stdlib Require Import Sorting.Sorted Sorting.Permutation DecimalString.
From stdpp Require Import gmap.

Set Default Goal Selector "!".

(** ** JavaScript numbers *)

Inductive jsnum : Type :=
| NaN
| PInf
| NInf
| Fin (q : Q).

Arguments Fin q%_Q.

Declare Scope js_scope.
Delimit Scope js_scope with js.
Bind Scope js_scope with jsnum.

Module JSNum.

Local Open Scope Q_scope.

Definition of_Z (z : Z) : jsnum := Fin (inject_Z z).
Definition of_nat (n : nat) : jsnum := of_Z (Z.of_nat n).

Definition neg (a : jsnum) : jsnum :=
  match a with
  | NaN => NaN
  | PInf => NInf
  | NInf => PInf
  | Fin q => Fin (- q)
  end.

Definition add (a b : jsnum) : jsnum :=
  match a, b with
  | NaN, _ | _, NaN => NaN
  | PInf, NInf | NInf, PInf => NaN
  | PInf, _ | _, PInf => PInf
  | NInf, _ | _, NInf => NInf
  | Fin x, Fin y => Fin (x + y)
  end.

Definition sub (a b : jsnum) : jsnum := add a (neg b).

(** The infinity of the sign of [q] times the sign given by [pos]; a zero
    factor gives [NaN]. *)
Definition inf_times (pos : bool) (q : Q) : jsnum :=
  match q ?= 0 with
  | Eq => NaN
  | Gt => if pos then PInf else NInf
  | Lt => if pos then NInf else PInf
  end.

Definition mul (a b : jsnum) : jsnum :=
  match a, b with
  | NaN, _ | _, NaN => NaN
  | PInf, PInf | NInf, NInf => PInf
  | PInf, NInf | NInf, PInf => NInf
  | PInf, Fin q | Fin q, PInf => inf_times true q
  | NInf, Fin q | Fin q, NInf => inf_times false q
  | Fin x, Fin y => Fin (x * y)
  end.

Definition div (a b : jsnum) : jsnum :=
  match a, b with
  | NaN, _ | _, NaN => NaN
  | (PInf | NInf), (PInf | NInf) => NaN
  | PInf, Fin y => match y ?= 0 with Lt => NInf | _ => PInf end
  | NInf, Fin y => match y ?= 0 with Lt => PInf | _ => NInf end
  | Fin _, (PInf | NInf) => Fin 0
  | Fin x, Fin y =>
      match y ?= 0 with
      | Eq => inf_times true x
      | _ => Fin (x / y)
      end
  end.

(** [a < b]; every comparison with [NaN] is false. *)
Definition ltb (a b : jsnum) : bool :=
  match a, b with
  | NaN, _ | _, NaN => false
  | _, NInf => false
  | NInf, _ => true
  | PInf, _ => false
  | _, PInf => true
  | Fin x, Fin y => match x ?= y with Lt => true | _ => false end
  end.

Definition gtb (a b : jsnum) : bool := ltb b a.

(** [a <= b]. *)
Definition leb (a b : jsnum) : bool :=
  match a, b with
  | NaN, _ | _, NaN => false
  | NInf, _ => true
  | _, PInf => true
  | _, NInf => false
  | PInf, _ => false
  | Fin x, Fin y => match x ?= y with Gt => false | _ => true end
  end.

(** [Math.max(a, b)] and [Math.min(a, b)]. *)
Definition Math_max (a b : jsnum) : jsnum :=
  match a, b with
  | NaN, _ | _, NaN => NaN
  | _, _ => if ltb a b then b else a
  end.

Definition Math_min (a b : jsnum) : jsnum :=
  match a, b with
  | NaN, _ | _, NaN => NaN
  | _, _ => if ltb b a then b else a
  end.

(** [Math.max(...xs)]: the running maximum starts at [-Infinity]. *)
Definition Math_max_spread (xs : list jsnum) : jsnum :=
  fold_left Math_max xs NInf.

Definition Math_floor (a : jsnum) : jsnum :=
  match a with
  | Fin q => of_Z (Qfloor q)
  | _ => a
  end.

Definition Math_ceil (a : jsnum) : jsnum :=
  match a with
  | Fin q => of_Z (Qceiling q)
  | _ => a
  end.

(** Same mathematical value (rationals are compared as fractions). *)
Definition same (a b : jsnum) : Prop :=
  match a, b with
  | NaN, NaN | PInf, PInf | NInf, NInf => True
  | Fin x, Fin y => x == y
  | _, _ => False
  end.

End JSNum.

Notation "a + b" := (JSNum.add a b) : js_scope.
Notation "a - b" := (JSNum.sub a b) : js_scope.
Notation "a * b" := (JSNum.mul a b) : js_scope.
Notation "a / b" := (JSNum.div a b) : js_scope.
Notation "a <? b" := (JSNum.ltb a b) : js_scope.
Notation "a >? b" := (JSNum.gtb a b) : js_scope.
Notation "a <=? b" := (JSNum.leb a b) : js_scope.

(** [ToIntegerOrInfinity], as used by [Array.prototype.slice]. *)
Inductive int_or_inf : Type :=
| Int (z : Z)
| PosInf
| NegInf.

Definition ToIntegerOrInfinity (a : jsnum) : int_or_inf :=
  match a with
  | NaN => Int 0
  | PInf => PosInf
  | NInf => NegInf
  | Fin q => Int (match (q ?= 0)%Q with Lt => Qceiling q | _ => Qfloor q end)
  end.

(** ** JavaScript strings *)

Definition jsstring : Type := list N.

(** The code units of an ASCII literal. *)
Definition js (s : string) : jsstring :=
  map N_of_ascii (list_ascii_of_string s).

(** Truthiness of a [string | null] value: [null] and the empty string are falsy. *)
Definition truthy (s : option jsstring) : bool :=
  match s with
  | Some (_ :: _) => true
  | _ => false
  end.

(** The decimal rendering of an integer-valued number inside a template
    literal (JavaScript switches to exponent notation from [1e21]). *)
Definition Number_toString (z : Z) : jsstring :=
  js (NilZero.string_of_int (Z.to_int z)).

(** ** Exceptions *)

Inductive js_error : Type :=
| SyntaxError.

Inductive outcome (A : Type) : Type :=
| Ok (a : A)
| Throw (e : js_error).

Arguments Ok {A} a.
Arguments Throw {A} e.

#[global] Instance outcome_ret : MRet outcome := fun A a => Ok a.

#[global] Instance outcome_bind : MBind outcome := fun A B k m =>
  match m with
  | Ok a => k a
  | Throw e => Throw e
  end.

(** ** [JSON.parse] on the stored list fields

    The [concepts] and [facts] columns hold JSON text that the code reads
    as [string[]].  [JSON_parse] accepts exactly the JSON arrays of strings
    and answers [None] where [JSON.parse] throws; JSON text of another shape
    is outside the type the code asserts and is treated like unparseable
    text. *)

Inductive token : Type :=
| LBrack
| RBrack
| Comma
| Str (s : jsstring).

Definition code (c : ascii) : N := N_of_ascii c.

(** The code unit of the double quote. *)
Definition quote : N := 34.

Definition is_ws (c : N) : bool :=
  (c =? 32)%N || (c =? 9)%N || (c =? 10)%N || (c =? 13)%N.

Definition hex_digit (c : N) : option N :=
  if ((48 <=? c) && (c <=? 57))%N then Some (c - 48)%N
  else if ((65 <=? c) && (c <=? 70))%N then Some (c - 55)%N
  else if ((97 <=? c) && (c <=? 102))%N then Some (c - 87)%N
  else None.

Definition simple_escape (c : N) : option N :=
  if (c =? quote)%N then Some quote
  else if (c =? code "\")%N then Some (code "\")
  else if (c =? code "/")%N then Some (code "/")
  else if (c =? code "b")%N then Some 8%N
  else if (c =? code "f")%N then Some 12%N
  else if (c =? code "n")%N then Some 10%N
  else if (c =? code "r")%N then Some 13%N
  else if (c =? code "t")%N then Some 9%N
  else None.

(** [lex cur s]: the tokens of [s]; [cur] is [Some acc] inside a string
    literal, [acc] holding its code units so far in reverse. *)
Fixpoint lex (cur : option jsstring) (s : jsstring) {struct s} : option (list token) :=
  match cur, s with
  | None, [] => Some []
  | None, c :: s' =>
      if is_ws c then lex None s'
      else if (c =? code "[")%N then cons LBrack <$> lex None s'
      else if (c =? code "]")%N then cons RBrack <$> lex None s'
      else if (c =? code ",")%N then cons Comma <$> lex None s'
      else if (c =? quote)%N then lex (Some []) s'
      else None
  | Some _, [] => None
  | Some acc, c :: s' =>
      if (c =? quote)%N then cons (Str (rev acc)) <$> lex None s'
      else if (c =? code "\")%N then
        match s' with
        | [] => None
        | e :: s'' =>
            match simple_escape e with
            | Some u => lex (Some (u :: acc)) s''
            | None =>
                if (e =? code "u")%N then
                  match s'' with
                  | h1 :: h2 :: h3 :: h4 :: s''' =>
                      match hex_digit h1, hex_digit h2, hex_digit h3, hex_digit h4 with
                      | Some d1, Some d2, Some d3, Some d4 =>
                          lex (Some ((d1 * 4096 + d2 * 256 + d3 * 16 + d4)%N :: acc)) s'''
                      | _, _, _, _ => None
                      end
                  | _ => None
                  end
                else None
            end
        end
      else if (c <? 32)%N then None
      else lex (Some (c :: acc)) s'
  end.

Fixpoint parse_items (toks : list token) : option (list jsstring) :=
  match toks with
  | [RBrack] => Some []
  | Comma :: Str s :: rest => cons s <$> parse_items rest
  | _ => None
  end.

Definition JSON_parse (text : jsstring) : option (list jsstring) :=
  toks ← lex None text;
  match toks with
  | [LBrack; RBrack] => Some []
  | LBrack :: Str s :: rest => cons s <$> parse_items rest
  | _ => None
  end.

(** ** Records of the store and of the analysis *)

(** Modelled from the spec: the declaration of [ObservationRecord] is in
    [SessionStore], which is not in the sources at hand.  The fields are
    those [ShrinkAnalyzer] reads, typed as the data model describes them:
    an integer identifier and creation timestamp, a category and a project,
    and optional title, subtitle, narrative and serialized facts and
    concepts. *)
Module ObservationRecord.
Record t : Type := mk {
  id : Z;
  title : option jsstring;
  subtitle : option jsstring;
  type : jsstring;
  project : jsstring;
  created_at_epoch : Z;
  concepts : option jsstring;
  narrative : option jsstring;
  facts : option jsstring
}.
End ObservationRecord.

Module ShrinkCandidate.
Record t : Type := mk {
  id : Z;
  title : option jsstring;
  type : jsstring;
  project : jsstring;
  created_at_epoch : Z;
  score : jsnum;
  reasons : list jsstring;
  tokenCount : jsnum
}.
End ShrinkCandidate.

Module ShrinkAnalysis.
Record t : Type := mk {
  candidates : list ShrinkCandidate.t;
  totalTokensSaved : jsnum;
  observationsToRemove : nat;
  totalObservations : nat
}.
End ShrinkAnalysis.

(** An absent option is [None]; destructuring then takes the default. *)
Module ShrinkOptions.
Record t : Type := mk {
  project : option jsstring;
  targetReduction : option jsnum;
  minAge : option jsnum;
  maxAge : option jsnum;
  minScore : option jsnum
}.
Definition empty : t := mk None None None None None.
End ShrinkOptions.

Abbreviation ObservationRecord := ObservationRecord.t.
Abbreviation ShrinkCandidate := ShrinkCandidate.t.
Abbreviation ShrinkAnalysis := ShrinkAnalysis.t.
Abbreviation ShrinkOptions := ShrinkOptions.t.

(** ** Weight tables *)

Definition TYPE_WEIGHTS : gmap jsstring jsnum :=
  list_to_map
    [ (js "decision", Fin 1.0);
      (js "bugfix", Fin 0.9);
      (js "feature", Fin 0.8);
      (js "refactor", Fin 0.7);
      (js "discovery", Fin 0.5);
      (js "change", Fin 0.4) ].

Definition CONCEPT_WEIGHTS : gmap jsstring jsnum :=
  list_to_map
    [ (js "problem-solution", Fin 1.0);
      (js "trade-off", Fin 0.9);
      (js "why-it-exists", Fin 0.8);
      (js "gotcha", Fin 0.8);
      (js "how-it-works", Fin 0.7);
      (js "pattern", Fin 0.6);
      (js "what-changed", Fin 0.4) ].

(** ** Scoring *)

Section Scoring.

Import JSNum.
Local Open Scope js_scope.

(** [obs.narrative?.length ?? 0] *)
Definition narrativeLength (obs : ObservationRecord) : nat :=
  match ObservationRecord.narrative obs with
  | Some s => length s
  | None => 0
  end.

(** [obs.facts ? JSON.parse(obs.facts).length : 0]; the parse is not
    guarded, so its [SyntaxError] escapes. *)
Definition factsCount (obs : ObservationRecord) : outcome jsnum :=
  if truthy (ObservationRecord.facts obs) then
    match JSON_parse (default [] (ObservationRecord.facts obs)) with
    | Some facts => Ok (of_nat (length facts))
    | None => Throw SyntaxError
    end
  else Ok (Fin 0).

Definition calculateImportanceScore
    (obs : ObservationRecord) (now : Z) (maxAgeMs : jsnum) : outcome jsnum :=
  let score := Fin 0.5 in
  let typeWeight := default (Fin 0.5) (TYPE_WEIGHTS !! ObservationRecord.type obs) in
  let score := score + (typeWeight - Fin 0.5) * Fin 0.3 in
  let ageMs := of_Z (now - ObservationRecord.created_at_epoch obs) in
  let ageDecay := Math_max (Fin 0) (Fin 1 - ageMs / maxAgeMs) in
  let score := score * (Fin 0.5 + ageDecay * Fin 0.5) in
  let score :=
    if truthy (ObservationRecord.concepts obs) then
      match JSON_parse (default [] (ObservationRecord.concepts obs)) with
      | Some concepts =>
          let maxConceptWeight :=
            Math_max_spread
              (map (fun c => default (Fin 0.5) (CONCEPT_WEIGHTS !! c)) concepts) in
          score + (maxConceptWeight - Fin 0.5) * Fin 0.2
      | None => score
      end
    else score in
  let narrativeLength := of_nat (narrativeLength obs) in
  factsCount ← factsCount obs;
  let contentScore :=
    Math_min (Fin 1) ((narrativeLength / Fin 500 + factsCount / Fin 5) / Fin 2) in
  let score := score + contentScore * Fin 0.1 in
  Ok (Math_max (Fin 0) (Math_min (Fin 1) score)).

(** [text += field + ' '] when [field] is truthy. *)
Definition append_field (text : jsstring) (field : option jsstring) : jsstring :=
  if truthy field then text ++ default [] field ++ js " " else text.

Definition estimateTokens (obs : ObservationRecord) : jsnum :=
  let text := [] in
  let text := append_field text (ObservationRecord.title obs) in
  let text := append_field text (ObservationRecord.subtitle obs) in
  let text := append_field text (ObservationRecord.narrative obs) in
  let text := append_field text (ObservationRecord.facts obs) in
  let text := append_field text (ObservationRecord.concepts obs) in
  Math_ceil (of_nat (length text) / Fin 4).

(** Timestamps are integers, so [Math.floor(ageMs / (24*60*60*1000))] is the
    floor division of [Z]. *)
Definition generateReasons
    (obs : ObservationRecord) (score : jsnum) (now : Z) (maxAgeMs : jsnum)
    : list jsstring :=
  let reasons := [] in
  let ageMs := (now - ObservationRecord.created_at_epoch obs)%Z in
  let ageDays := (ageMs / (24 * 60 * 60 * 1000))%Z in
  let reasons :=
    if (30 <? ageDays)%Z then reasons ++ [Number_toString ageDays ++ js " days old"]
    else reasons in
  let typeWeight := default (Fin 0.5) (TYPE_WEIGHTS !! ObservationRecord.type obs) in
  let reasons :=
    if typeWeight <? Fin 0.6
    then reasons ++ [js "Low-priority type: " ++ ObservationRecord.type obs]
    else reasons in
  let reasons :=
    if (narrativeLength obs <? 50)%nat then reasons ++ [js "Minimal content"]
    else reasons in
  let reasons :=
    if score <? Fin 0.2 then reasons ++ [js "Very low importance score"]
    else reasons in
  reasons.

End Scoring.

(** ** The observation store *)

(** Modelled from the spec: the store behind [sessionStore.db], reduced to
    its [observations] table, rows in insertion order. *)
Record SessionStore : Type := {
  db : list ObservationRecord
}.

(** A stable insertion sort: [x], which precedes every element of [l] in the
    input, is placed in front of the first element that is not strictly
    before it. *)
Fixpoint insert_sorted {A : Type} (before : A -> A -> bool) (x : A) (l : list A) : list A :=
  match l with
  | [] => [x]
  | e :: l' => if before e x then e :: insert_sorted before x l' else x :: e :: l'
  end.

Definition stable_sort {A : Type} (before : A -> A -> bool) (l : list A) : list A :=
  fold_right (insert_sorted before) [] l.

(** [WHERE created_at_epoch < ? [AND project = ?]] *)
Definition where_clause
    (cutoff : jsnum) (project : option jsstring) (obs : ObservationRecord) : bool :=
  (JSNum.of_Z (ObservationRecord.created_at_epoch obs) <? cutoff)%js
  && match project with
     | Some p => bool_decide (ObservationRecord.project obs = p)
     | None => true
     end.

(** [SELECT * FROM observations WHERE ... ORDER BY created_at_epoch ASC];
    rows of equal timestamp stay in table order. *)
Definition select_observations
    (store : SessionStore) (cutoff : jsnum) (project : option jsstring)
    : list ObservationRecord :=
  stable_sort
    (fun a b => (ObservationRecord.created_at_epoch a <? ObservationRecord.created_at_epoch b)%Z)
    (List.filter (where_clause cutoff project) (db store)).

(** [SELECT COUNT( * ) FROM observations [WHERE project = ?]] *)
Definition count_observations (store : SessionStore) (project : option jsstring) : nat :=
  match project with
  | Some p =>
      length (List.filter (fun obs => bool_decide (ObservationRecord.project obs = p)) (db store))
  | None => length (db store)
  end.

(** Modelled from the spec: [SessionStore.deleteObservationById] is not in
    the sources at hand; the store interface is a point delete by
    identifier that returns a success boolean, true when a row was removed. *)
Definition deleteObservationById (store : SessionStore) (id : Z) : bool * SessionStore :=
  let hit := fun obs => (ObservationRecord.id obs =? id)%Z in
  (existsb hit (db store), {| db := List.filter (fun obs => negb (hit obs)) (db store) |}).

(** ** Arrays *)

(** [arr.sort(comparefn)]: the sort is stable, and [a] goes before [b] when
    [comparefn(a, b) < 0]. *)
Definition Array_sort {A : Type} (comparefn : A -> A -> jsnum) (arr : list A) : list A :=
  stable_sort (fun a b => (comparefn a b <? Fin 0)%js) arr.

(** [arr.slice(0, end)] *)
Definition Array_slice0 {A : Type} (arr : list A) (end_ : jsnum) : list A :=
  let len := Z.of_nat (length arr) in
  let final :=
    match ToIntegerOrInfinity end_ with
    | NegInf => 0%Z
    | Int relativeEnd =>
        if (relativeEnd <? 0)%Z then Z.max (len + relativeEnd) 0
        else Z.min relativeEnd len
    | PosInf => len
    end in
  firstn (Z.to_nat final) arr.

(** [for (const x of xs) { ... }] over a loop state, stopping at a throw. *)
Fixpoint for_of {A S : Type} (xs : list A) (body : S -> A -> outcome S) (s : S) : outcome S :=
  match xs with
  | [] => Ok s
  | x :: xs' => s' ← body s x; for_of xs' body s'
  end.

(** ** [analyze] and [executeShrink] *)

Section Analyzer.

Import JSNum.
Local Open Scope js_scope.

Definition days_to_ms (days : jsnum) : jsnum :=
  days * Fin 24 * Fin 60 * Fin 60 * Fin 1000.

(** The body of the loop over the selected observations. *)
Definition analyze_body
    (now : Z) (maxAgeMs minScore : jsnum)
    (candidates : list ShrinkCandidate) (obs : ObservationRecord)
    : outcome (list ShrinkCandidate) :=
  score ← calculateImportanceScore obs now maxAgeMs;
  let tokenCount := estimateTokens obs in
  if score <? minScore then
    let reasons := generateReasons obs score now maxAgeMs in
    Ok (candidates ++
        [ ShrinkCandidate.mk
            (ObservationRecord.id obs) (ObservationRecord.title obs)
            (ObservationRecord.type obs) (ObservationRecord.project obs)
            (ObservationRecord.created_at_epoch obs) score reasons tokenCount ])
  else Ok candidates.

Definition analyze
    (sessionStore : SessionStore) (now : Z) (options : ShrinkOptions)
    : outcome ShrinkAnalysis :=
  let project := ShrinkOptions.project options in
  let targetReduction := default (Fin 0.3) (ShrinkOptions.targetReduction options) in
  let minAge := default (Fin 7) (ShrinkOptions.minAge options) in
  let maxAge := default (Fin 180) (ShrinkOptions.maxAge options) in
  let minScore := default (Fin 0.6) (ShrinkOptions.minScore options) in
  let minAgeMs := days_to_ms minAge in
  let maxAgeMs := days_to_ms maxAge in
  let scope := if truthy project then project else None in
  let observations := select_observations sessionStore (of_Z now - minAgeMs) scope in
  let totalObservations := count_observations sessionStore scope in
  candidates ← for_of observations (analyze_body now maxAgeMs minScore) [];
  let candidates :=
    Array_sort (fun a b => ShrinkCandidate.score a - ShrinkCandidate.score b) candidates in
  let targetCount := Math_max (Fin 1) (Math_floor (of_nat totalObservations * targetReduction)) in
  let finalCandidates := Array_slice0 candidates targetCount in
  let totalTokensSaved :=
    fold_left (fun sum c => sum + ShrinkCandidate.tokenCount c) finalCandidates (Fin 0) in
  Ok (ShrinkAnalysis.mk finalCandidates totalTokensSaved (length finalCandidates)
        totalObservations).

Record ShrinkCounts : Type := {
  deleted : nat;
  failed : nat
}.

(** The loop of [executeShrink], threading the store and both counters. *)
Fixpoint executeShrink_from
    (sessionStore : SessionStore) (observationIds : list Z) (deleted failed : nat)
    : ShrinkCounts * SessionStore :=
  match observationIds with
  | [] => ({| deleted := deleted; failed := failed |}, sessionStore)
  | id :: rest =>
      let (success, sessionStore) := deleteObservationById sessionStore id in
      if success then executeShrink_from sessionStore rest (S deleted) failed
      else executeShrink_from sessionStore rest deleted (S failed)
  end.

Definition executeShrink (sessionStore : SessionStore) (observationIds : list Z)
    : ShrinkCounts * SessionStore :=
  executeShrink_from sessionStore observationIds 0 0.

End Analyzer.

(** * The viewer: shrink dialog and project switches *)

(** ** [ShrinkModal]

    The dialog keeps the analysis it received ([null] before the first
    one) and the set of selected identifiers. *)

Section ShrinkModal.

Import JSNum.
Local Open Scope js_scope.

(** [formatAge(epochSeconds)], with [Date.now()] as [now_ms]. *)
Definition formatAge (now_ms : Z) (epochSeconds : Z) : jsstring :=
  let now := (now_ms / 1000)%Z in
  let days := ((now - epochSeconds) / 86400)%Z in
  if (days =? 0)%Z then js "today"
  else if (days =? 1)%Z then js "1 day ago"
  else if (days <? 30)%Z then Number_toString days ++ js " days ago"
  else if (days <? 60)%Z then js "1 month ago"
  else Number_toString (days / 30) ++ js " months ago".

(** The identifiers of the candidates of an analysis. *)
Definition candidate_ids (analysis : ShrinkAnalysis) : list Z :=
  map ShrinkCandidate.id (ShrinkAnalysis.candidates analysis).

Definition toggleCandidate (id : Z) (prev : gset Z) : gset Z :=
  if decide (id ∈ prev) then prev ∖ {[ id ]} else prev ∪ {[ id ]}.

Definition selectAll (analysis : option ShrinkAnalysis) (prev : gset Z) : gset Z :=
  match analysis with
  | Some a => list_to_set (candidate_ids a)
  | None => prev
  end.

Definition selectNone : gset Z := ∅.

Definition selectOlderThan
    (now_ms : Z) (analysis : option ShrinkAnalysis) (days : Z) (prev : gset Z) : gset Z :=
  match analysis with
  | None => prev
  | Some a =>
      let cutoff := (now_ms / 1000 - days * 86400)%Z in
      let ids :=
        map ShrinkCandidate.id
          (List.filter (fun c => (ShrinkCandidate.created_at_epoch c <? cutoff)%Z)
             (ShrinkAnalysis.candidates a)) in
      list_to_set ids
  end.

Definition selectedTokens (analysis : option ShrinkAnalysis) (selectedIds : gset Z) : jsnum :=
  match analysis with
  | None => Fin 0
  | Some a =>
      fold_left (fun sum c => sum + ShrinkCandidate.tokenCount c)
        (List.filter (fun c => bool_decide (ShrinkCandidate.id c ∈ selectedIds))
           (ShrinkAnalysis.candidates a))
        (Fin 0)
  end.

(** What the user can do to the selection while an analysis is shown; a
    row can only be toggled through its own checkbox. *)
Inductive selection_action : Type :=
| ToggleCandidate (id : Z)
| SelectAll
| SelectNone
| SelectOlderThan (days : Z).

Definition apply_action
    (now_ms : Z) (analysis : ShrinkAnalysis) (selectedIds : gset Z)
    (action : selection_action) : gset Z :=
  match action with
  | ToggleCandidate id => toggleCandidate id selectedIds
  | SelectAll => selectAll (Some analysis) selectedIds
  | SelectNone => selectNone
  | SelectOlderThan days => selectOlderThan now_ms (Some analysis) days selectedIds
  end.

(** The toggles offered are those of the listed candidates. *)
Definition offered (analysis : ShrinkAnalysis) (action : selection_action) : Prop :=
  match action with
  | ToggleCandidate id => In id (candidate_ids analysis)
  | _ => True
  end.

(** The selection after [handleAnalyze] received [analysis] (every
    candidate selected) and the user performed [actions]. *)
Definition selection_after
    (now_ms : Z) (analysis : ShrinkAnalysis) (actions : list selection_action) : gset Z :=
  fold_left (apply_action now_ms analysis) actions (list_to_set (candidate_ids analysis)).

End ShrinkModal.

(** ** [useProjectExclusion] and [ProjectsModal] *)

Section ProjectExclusion.

Definition toggleProject (project : jsstring) (prev : gset jsstring) : gset jsstring :=
  if decide (project ∈ prev) then prev ∖ {[ project ]} else prev ∪ {[ project ]}.

Definition isExcluded (excludedProjects : gset jsstring) (project : jsstring) : bool :=
  bool_decide (project ∈ excludedProjects).

Definition enableAll : gset jsstring := ∅.

Definition disableAll (projects : list jsstring) : gset jsstring := list_to_set projects.

(** [JSON.stringify] of an array of strings.  A string is quoted code
    point by code point: the seven short escapes, [\uXXXX] (lower-case hex)
    for the other control characters and for lone surrogates, and every
    other character as it is. *)
Definition is_high_surrogate (c : N) : bool := ((55296 <=? c) && (c <=? 56319))%N.
Definition is_low_surrogate (c : N) : bool := ((56320 <=? c) && (c <=? 57343))%N.

Definition hex_char (d : N) : N := if (d <? 10)%N then (48 + d)%N else (87 + d)%N.

Definition unicode_escape (c : N) : jsstring :=
  [ code "\"; code "u"; hex_char (c / 4096); hex_char ((c / 256) mod 16);
    hex_char ((c / 16) mod 16); hex_char (c mod 16) ]%N.

Definition short_escape (c : N) : option N :=
  if (c =? 8)%N then Some (code "b")
  else if (c =? 9)%N then Some (code "t")
  else if (c =? 10)%N then Some (code "n")
  else if (c =? 12)%N then Some (code "f")
  else if (c =? 13)%N then Some (code "r")
  else if (c =? quote)%N then Some quote
  else if (c =? code "\")%N then Some (code "\")
  else None.

Fixpoint quote_body (s : jsstring) : jsstring :=
  match s with
  | [] => []
  | c :: s' =>
      match short_escape c with
      | Some e => code "\" :: e :: quote_body s'
      | None =>
          if is_high_surrogate c then
            match s' with
            | c2 :: s'' =>
                if is_low_surrogate c2 then c :: c2 :: quote_body s''
                else unicode_escape c ++ quote_body s'
            | [] => unicode_escape c
            end
          else if is_low_surrogate c || (c <? 32)%N then unicode_escape c ++ quote_body s'
          else c :: quote_body s'
      end
  end.

Definition QuoteJSONString (s : jsstring) : jsstring :=
  quote :: quote_body s ++ [quote].

Fixpoint join_commas (items : list jsstring) : jsstring :=
  match items with
  | [] => []
  | [item] => item
  | item :: rest => item ++ code "," :: join_commas rest
  end.

Definition JSON_stringify (strings : list jsstring) : jsstring :=
  js "[" ++ join_commas (map QuoteJSONString strings) ++ js "]".

(** The effect that stores the set: [JSON.stringify([...excludedProjects])]. *)
Definition stored_exclusions (excludedProjects : gset jsstring) : jsstring :=
  JSON_stringify (elements excludedProjects).

(** The initial state, from [localStorage.getItem(STORAGE_KEY)]: the stored
    set, or the empty set when nothing is stored or reading it throws.
    The stored text is read as the hook writes it, as a JSON array of
    strings; a value of another JSON shape, which only another writer could
    have stored, is not modelled. *)
Definition initial_exclusions (stored : option jsstring) : gset jsstring :=
  if truthy stored then
    match JSON_parse (default [] stored) with
    | Some projects => list_to_set projects
    | None => ∅
    end
  else ∅.

(** [projects.filter(p => !excludedProjects.has(p)).length] in [ProjectsModal]. *)
Definition enabledCount (projects : list jsstring) (excludedProjects : gset jsstring) : nat :=
  length (List.filter (fun p => negb (bool_decide (p ∈ excludedProjects))) projects).

End ProjectExclusion.

(** * Specification-side definitions

    The definitions below follow the words of the specification; the
    theorems compare the code with them. *)

Section SpecWords.

Import JSNum.
Local Open Scope js_scope.

(** The estimate as the specification words it: the present (non-null)
    fields joined with one space between consecutive fields. *)
Definition present_fields (obs : ObservationRecord) : list jsstring :=
  omap (fun field => field)
    [ ObservationRecord.title obs; ObservationRecord.subtitle obs;
      ObservationRecord.narrative obs; ObservationRecord.facts obs;
      ObservationRecord.concepts obs ].

Fixpoint join_with_spaces (fields : list jsstring) : jsstring :=
  match fields with
  | [] => []
  | [field] => field
  | field :: rest => field ++ js " " ++ join_with_spaces rest
  end.

Definition estimateTokens_joined (obs : ObservationRecord) : jsnum :=
  Math_ceil (of_nat (length (join_with_spaces (present_fields obs))) / Fin 4).

(** The characters the code counts: every non-empty field and the space
    appended after it. *)
Definition counted_characters (obs : ObservationRecord) : nat :=
  list_sum
    (map (fun field => if truthy field then (length (default [] field) + 1)%nat else 0%nat)
       [ ObservationRecord.title obs; ObservationRecord.subtitle obs;
         ObservationRecord.narrative obs; ObservationRecord.facts obs;
         ObservationRecord.concepts obs ]).

(** The category and concept tables, as the specification lists them. *)
Definition type_weight_spec (category : jsstring) : Q :=
  if decide (category = js "decision") then 1.0
  else if decide (category = js "bugfix") then 0.9
  else if decide (category = js "feature") then 0.8
  else if decide (category = js "refactor") then 0.7
  else if decide (category = js "discovery") then 0.5
  else if decide (category = js "change") then 0.4
  else 0.5.

Definition concept_weight_spec (tag : jsstring) : Q :=
  if decide (tag = js "problem-solution") then 1.0
  else if decide (tag = js "trade-off") then 0.9
  else if decide (tag = js "why-it-exists") then 0.8
  else if decide (tag = js "gotcha") then 0.8
  else if decide (tag = js "how-it-works") then 0.7
  else if decide (tag = js "pattern") then 0.6
  else if decide (tag = js "what-changed") then 0.4
  else 0.5.

(** Steps 1 to 3 of the scoring algorithm: base score, category weight,
    age decay. *)
Definition score_after_age (obs : ObservationRecord) (now : Z) (maxAgeMs : jsnum) : jsnum :=
  let score := Fin 0.5 + (Fin (type_weight_spec (ObservationRecord.type obs)) - Fin 0.5) * Fin 0.3 in
  let ageMs := of_Z (now - ObservationRecord.created_at_epoch obs) in
  let ageDecay := Math_max (Fin 0) (Fin 1 - ageMs / maxAgeMs) in
  score * (Fin 0.5 + ageDecay * Fin 0.5).

(** Steps 5 and 6: content-density bonus and clamp. *)
Definition content_bonus_and_clamp
    (obs : ObservationRecord) (factsCount score : jsnum) : jsnum :=
  let contentScore :=
    Math_min (Fin 1)
      ((of_nat (narrativeLength obs) / Fin 500 + factsCount / Fin 5) / Fin 2) in
  Math_max (Fin 0) (Math_min (Fin 1) (score + contentScore * Fin 0.1)).

(** Step 4 as the code performs it, as a function of the running score. *)
Definition tag_step (obs : ObservationRecord) (score : jsnum) : jsnum :=
  if truthy (ObservationRecord.concepts obs) then
    match JSON_parse (default [] (ObservationRecord.concepts obs)) with
    | Some concepts =>
        score
        + (Math_max_spread (map (fun c => default (Fin 0.5) (CONCEPT_WEIGHTS !! c)) concepts)
           - Fin 0.5) * Fin 0.2
    | None => score
    end
  else score.

(** Every text field is [null] or empty. *)
Definition no_text (obs : ObservationRecord) : Prop :=
  truthy (ObservationRecord.title obs) = false
  /\ truthy (ObservationRecord.subtitle obs) = false
  /\ truthy (ObservationRecord.narrative obs) = false
  /\ truthy (ObservationRecord.facts obs) = false
  /\ truthy (ObservationRecord.concepts obs) = false.

(** A [maxAgeMs] that is a number other than zero. *)
Definition nonzero_number (a : jsnum) : Prop :=
  match a with
  | NaN => False
  | Fin q => ~ (q == 0)%Q
  | PInf | NInf => True
  end.

End SpecWords.

(** ** The analysis, in the words of the specification *)

Section AnalysisWords.

Import JSNum.
Local Open Scope js_scope.

(** The effective options: the given value, else the default. *)
Definition targetReduction_of (options : ShrinkOptions) : jsnum :=
  default (Fin 0.3) (ShrinkOptions.targetReduction options).
Definition minAgeMs_of (options : ShrinkOptions) : jsnum :=
  days_to_ms (default (Fin 7) (ShrinkOptions.minAge options)).
Definition maxAgeMs_of (options : ShrinkOptions) : jsnum :=
  days_to_ms (default (Fin 180) (ShrinkOptions.maxAge options)).
Definition minScore_of (options : ShrinkOptions) : jsnum :=
  default (Fin 0.6) (ShrinkOptions.minScore options).

(** The project the analysis is scoped to: a non-empty [project], else none. *)
Definition scope_of (options : ShrinkOptions) : option jsstring :=
  if truthy (ShrinkOptions.project options) then ShrinkOptions.project options else None.

(** In scope: of the scoping project, when there is one. *)
Definition in_scope (options : ShrinkOptions) (obs : ObservationRecord) : bool :=
  match scope_of options with
  | Some p => bool_decide (ObservationRecord.project obs = p)
  | None => true
  end.

(** Eligible: in scope and created strictly before [now - minAge]. *)
Definition eligible (now : Z) (options : ShrinkOptions) (obs : ObservationRecord) : bool :=
  (of_Z (ObservationRecord.created_at_epoch obs) <? of_Z now - minAgeMs_of options)
  && in_scope options obs.

Definition score_or_NaN (now : Z) (maxAgeMs : jsnum) (obs : ObservationRecord) : jsnum :=
  match calculateImportanceScore obs now maxAgeMs with
  | Ok score => score
  | Throw _ => NaN
  end.

(** Scoring strictly below the threshold. *)
Definition below_minScore
    (now : Z) (maxAgeMs minScore : jsnum) (obs : ObservationRecord) : bool :=
  score_or_NaN now maxAgeMs obs <? minScore.

(** The candidate record of an observation. *)
Definition candidate_of (now : Z) (maxAgeMs : jsnum) (obs : ObservationRecord)
    : ShrinkCandidate :=
  let score := score_or_NaN now maxAgeMs obs in
  ShrinkCandidate.mk
    (ObservationRecord.id obs) (ObservationRecord.title obs)
    (ObservationRecord.type obs) (ObservationRecord.project obs)
    (ObservationRecord.created_at_epoch obs) score
    (generateReasons obs score now maxAgeMs) (estimateTokens obs).

(** The candidate pool in scan order: the selected observations that score
    below the threshold. *)
Definition candidate_pool (sessionStore : SessionStore) (now : Z) (options : ShrinkOptions)
    : list ShrinkCandidate :=
  map (candidate_of now (maxAgeMs_of options))
    (List.filter (below_minScore now (maxAgeMs_of options) (minScore_of options))
       (select_observations sessionStore (of_Z now - minAgeMs_of options) (scope_of options))).

(** [max(1, floor(totalObservations * targetReduction))] *)
Definition targetCount_of (totalObservations : nat) (options : ShrinkOptions) : jsnum :=
  Math_max (Fin 1) (Math_floor (of_nat totalObservations * targetReduction_of options)).

(** Ascending by a rational key. *)
Definition key_le {A : Type} (key : A -> Q) (a b : A) : Prop := (key a <= key b)%Q.

Definition score_le (a b : ShrinkCandidate) : Prop :=
  (ShrinkCandidate.score a <=? ShrinkCandidate.score b) = true.

(** The rational value of a score (finite for every candidate). *)
Definition score_value (c : ShrinkCandidate) : Q :=
  match ShrinkCandidate.score c with
  | Fin q => q
  | _ => 0
  end.

(** A finite score in [[0,1]]. *)
Definition unit_score (c : ShrinkCandidate) : Prop :=
  exists q : Q, ShrinkCandidate.score c = Fin q /\ (0 <= q <= 1)%Q.

(** The candidates whose score has the value [q]. *)
Definition with_score (q : Q) (l : list ShrinkCandidate) : list ShrinkCandidate :=
  List.filter (fun c => Qeq_bool (score_value c) q) l.

Definition sum_tokens (l : list ShrinkCandidate) : jsnum :=
  fold_right (fun c acc => ShrinkCandidate.tokenCount c + acc) (Fin 0) l.

(** Identifiers are unique in the store (the primary key). *)
Definition unique_ids (store : SessionStore) : Prop :=
  List.NoDup (map ObservationRecord.id (db store)).

(** Not among the listed identifiers. *)
Definition unlisted (ids : list Z) (obs : ObservationRecord) : bool :=
  negb (existsb (Z.eqb (ObservationRecord.id obs)) ids).

Definition has_id (store : SessionStore) (id : Z) : bool :=
  existsb (fun obs => (ObservationRecord.id obs =? id)%Z) (db store).

End AnalysisWords.

(** ** Sample data *)

(** The JSON text of an array of plain ASCII strings. *)
Fixpoint json_items (items : list string) : jsstring :=
  match items with
  | [] => []
  | [item] => quote :: js item ++ [quote]
  | item :: rest => quote :: js item ++ [quote] ++ js "," ++ json_items rest
  end.

Definition json_array (items : list string) : jsstring :=
  js "[" ++ json_items items ++ js "]".

Definition day_ms : Z := 24 * 60 * 60 * 1000.

(** Two tags, two facts, created 100 days before [now = 200 days]. *)
Definition obs_tagged : ObservationRecord :=
  ObservationRecord.mk 2 (Some (js "Cache bug")) None (js "bugfix") (js "demo")
    (100 * day_ms) (Some (json_array ["gotcha"%string; "pattern"%string]))
    (Some (js "The cache key ignored the locale."))
    (Some (json_array ["a"%string; "b"%string])).

(** An empty tag list next to a facts field that is not JSON. *)
Definition obs_empty_tags_bad_facts : ObservationRecord :=
  ObservationRecord.mk 3 None None (js "decision") (js "demo")
    (100 * day_ms) (Some (js "[]")) None (Some (js "not json")).

(** An empty tag list and no facts. *)
Definition obs_empty_tags : ObservationRecord :=
  ObservationRecord.mk 4 None None (js "decision") (js "demo")
    (100 * day_ms) (Some (js "[]")) (Some (js "A long-standing decision.")) None.

(** A facts field that is not JSON. *)
Definition obs_bad_facts : ObservationRecord :=
  ObservationRecord.mk 5 (Some (js "Note")) None (js "discovery") (js "demo")
    (100 * day_ms) None (Some (js "Something was found.")) (Some (js "not json")).

(** A concepts field that is not JSON. *)
Definition obs_bad_concepts : ObservationRecord :=
  ObservationRecord.mk 6 (Some (js "Note")) None (js "discovery") (js "demo")
    (100 * day_ms) (Some (js "not json")) (Some (js "Something was found.")) None.

(** An old, thin [change] note. *)
Definition obs_old_change : ObservationRecord :=
  ObservationRecord.mk 7 (Some (js "Tweak")) None (js "change") (js "demo")
    (10 * day_ms) None (Some (js "Renamed a variable.")) None.

Definition sample_store : SessionStore :=
  {| db := [obs_tagged; obs_old_change; obs_empty_tags] |}.

Definition sample_options : ShrinkOptions :=
  ShrinkOptions.mk None (Some (Fin 0.7)) None None None.

Definition sample_now : Z := 200 * day_ms.

(** [obs_tagged] with a longer narrative and one more fact. *)
Definition obs_tagged_richer : ObservationRecord :=
  ObservationRecord.mk 8 (Some (js "Cache bug")) None (js "bugfix") (js "demo")
    (100 * day_ms) (Some (json_array ["gotcha"%string; "pattern"%string]))
    (Some (js "The cache key ignored the locale, so two users saw each other's page."))
    (Some (json_array ["a"%string; "b"%string; "c"%string])).

(** [obs_tagged] filed as a [change] and as a [decision]. *)
Definition obs_tagged_as (category : string) : ObservationRecord :=
  ObservationRecord.mk 9 (Some (js "Cache bug")) None (js category) (js "demo")
    (100 * day_ms) (Some (json_array ["gotcha"%string; "pattern"%string]))
    (Some (js "The cache key ignored the locale."))
    (Some (json_array ["a"%string; "b"%string])).

(** An observation with no text at all. *)
Definition obs_blank : ObservationRecord :=
  ObservationRecord.mk 10 None (Some []) (js "change") (js "demo")
    (100 * day_ms) None None None.

Definition obs_lone_title : ObservationRecord :=
  ObservationRecord.mk 1 (Some (js "abcd")) None (js "change") (js "demo")
    0 None None None.

(** * Properties *)

(** Reduce the projections of explicit records, and nothing else. *)
Ltac fields :=
  cbn [ObservationRecord.id ObservationRecord.title ObservationRecord.subtitle
       ObservationRecord.type ObservationRecord.project
       ObservationRecord.created_at_epoch ObservationRecord.concepts
       ObservationRecord.narrative ObservationRecord.facts
       ShrinkCandidate.id ShrinkCandidate.score ShrinkCandidate.tokenCount
       ShrinkCandidate.created_at_epoch ShrinkCandidate.project
       ShrinkAnalysis.candidates ShrinkAnalysis.totalTokensSaved
       ShrinkAnalysis.observationsToRemove ShrinkAnalysis.totalObservations
       ShrinkOptions.project ShrinkOptions.targetReduction ShrinkOptions.minAge
       ShrinkOptions.maxAge ShrinkOptions.minScore] in *.

(** C10: with [project] the empty string, [analyze] is the global analysis:
    it is the same computation as when no project is given, the eligibility
    query has no project filter and the total is the count of all rows. *)
Theorem analyze_empty_project_is_global :
  forall (sessionStore : SessionStore) (now : Z)
         (targetReduction minAge maxAge minScore : option jsnum),
    let empty_project :=
      ShrinkOptions.mk (Some []) targetReduction minAge maxAge minScore in
    let no_project := ShrinkOptions.mk None targetReduction minAge maxAge minScore in
    analyze sessionStore now empty_project = analyze sessionStore now no_project
    /\ scope_of empty_project = None
    /\ (forall obs, In obs (db sessionStore) -> in_scope empty_project obs = true)
    /\ match analyze sessionStore now empty_project with
       | Ok r => ShrinkAnalysis.totalObservations r = length (db sessionStore)
       | Throw _ => True
       end.
Proof.
  intros store now targetReduction minAge maxAge minScore empty_project no_project.
  split; [reflexivity|]. split; [reflexivity|]. split; [reflexivity|].
  unfold analyze. destruct (for_of _ _ _); cbn [mbind outcome_bind]; [reflexivity|exact I].
Qed.

Section ScenarioChange.

Import JSNum.

(** C1: an observation of category [change] created 400 days before [now],
    with a 20-character narrative, no concept tags and no facts, scored with
    [maxAge] 180 days, gets the score 0.237 (0.47 after the category step,
    0.235 after the age step, plus 0.002 for content), and its reasons are
    exactly "400 days old", "Low-priority type: change" and
    "Minimal content". *)
Theorem change_400_days_scenario :
  forall (now id : Z) (title subtitle : option jsstring) (project narrative : jsstring),
    length narrative = 20%nat ->
    let obs :=
      ObservationRecord.mk id title subtitle (js "change") project
        (now - 400 * (24 * 60 * 60 * 1000)) None (Some narrative) None in
    let maxAgeMs := days_to_ms (Fin 180) in
    exists q : Q,
      calculateImportanceScore obs now maxAgeMs = Ok (Fin q)
      /\ (q == 0.237)%Q
      /\ (Fin q <? Fin 0.2)%js = false
      /\ generateReasons obs (Fin q) now maxAgeMs
         = [js "400 days old"; js "Low-priority type: change"; js "Minimal content"].
Proof.
  intros now id title subtitle project narrative Hlen obs maxAgeMs.
  exists (11850000000 # 50000000000)%Q.
  assert (Hage : (now - (now - 400 * (24 * 60 * 60 * 1000)) = 34560000000)%Z) by lia.
  split; [|split; [|split]].
  - unfold calculateImportanceScore, narrativeLength, obs; fields.
    rewrite Hage, Hlen. vm_compute. reflexivity.
  - reflexivity.
  - reflexivity.
  - unfold generateReasons, narrativeLength, obs; fields.
    rewrite Hage, Hlen. vm_compute. reflexivity.
Qed.

Lemma change_400_days_scenario_witness :
  exists q : Q,
    calculateImportanceScore
      (ObservationRecord.mk 1 None None (js "change") (js "demo")
         (1700000000000 - 400 * (24 * 60 * 60 * 1000)) None
         (Some (js "twenty characters..!")) None)
      1700000000000 (days_to_ms (Fin 180)) = Ok (Fin q)
    /\ (q == 0.237)%Q
    /\ (Fin q <? Fin 0.2)%js = false
    /\ generateReasons
         (ObservationRecord.mk 1 None None (js "change") (js "demo")
            (1700000000000 - 400 * (24 * 60 * 60 * 1000)) None
            (Some (js "twenty characters..!")) None)
         (Fin q) 1700000000000 (days_to_ms (Fin 180))
       = [js "400 days old"; js "Low-priority type: change"; js "Minimal content"].
Proof.
  apply (change_400_days_scenario 1700000000000 1 None None (js "demo")
           (js "twenty characters..!")).
  reflexivity.
Defined.

End ScenarioChange.

Section TokenEstimate.

Import JSNum.

Lemma length_append_field (text : jsstring) (field : option jsstring) :
  length (append_field text field)
  = length text + (if truthy field then length (default [] field) + 1 else 0).
Proof.
  unfold append_field. destruct (truthy field).
  - rewrite !length_app. reflexivity.
  - lia.
Qed.

Lemma Math_ceil_quarter (n : nat) :
  Math_ceil (of_nat n / Fin 4) = of_Z ((Z.of_nat n + 3) / 4).
Proof.
  unfold of_nat, of_Z, div, Math_ceil. cbn [Qcompare].
  change (4 ?= 0)%Q with Gt. cbv iota. unfold of_Z. do 2 f_equal.
  unfold Qceiling, Qfloor, Qdiv, Qmult, Qinv, Qopp, inject_Z. cbn.
  set (m := Z.of_nat n).
  assert (H0 : (0 <= m)%Z) by lia.
  rewrite Z.mul_1_r. change (Z.pos (1 * 4)) with 4%Z.
  pose proof (Z.div_mod (- m) 4 ltac:(lia)) as H1.
  pose proof (Z.mod_pos_bound (- m) 4 ltac:(lia)) as H2.
  pose proof (Z.div_mod (m + 3) 4 ltac:(lia)) as H3.
  pose proof (Z.mod_pos_bound (m + 3) 4 ltac:(lia)) as H4.
  lia.
Qed.

Lemma estimateTokens_value (obs : ObservationRecord) :
  estimateTokens obs = of_Z ((Z.of_nat (counted_characters obs) + 3) / 4).
Proof.
  unfold estimateTokens. rewrite Math_ceil_quarter.
  assert (H : length
    (append_field (append_field (append_field (append_field (append_field []
       (ObservationRecord.title obs)) (ObservationRecord.subtitle obs))
       (ObservationRecord.narrative obs)) (ObservationRecord.facts obs))
       (ObservationRecord.concepts obs)) = counted_characters obs).
  { unfold counted_characters. rewrite !length_append_field.
    cbn [map list_sum foldr length]. lia. }
  rewrite H. reflexivity.
Qed.

(** C7, as the code has it: the estimate is the ceiling of a quarter of the
    characters of the non-empty fields (title, subtitle, narrative,
    serialized facts, serialized concepts), each counted with the one space
    appended after it. *)
Theorem estimateTokens_counts_trailing_spaces :
  forall obs : ObservationRecord,
    estimateTokens obs = of_Z ((Z.of_nat (counted_characters obs) + 3) / 4).
Proof. exact estimateTokens_value. Qed.

(** C7, as stated, fails: for a lone title of four characters the joined
    text has 4 characters (1 token) while the code counts the trailing
    space (5 characters, 2 tokens). *)
Lemma estimateTokens_joined_counterexample :
  estimateTokens obs_lone_title = Fin 2
  /\ estimateTokens_joined obs_lone_title = Fin 1
  /\ estimateTokens obs_lone_title <> estimateTokens_joined obs_lone_title.
Proof.
  repeat split; try reflexivity. discriminate.
Qed.

End TokenEstimate.

(** ** Facts on JavaScript numbers *)

Section NumberFacts.

Import JSNum.
Local Open Scope Q_scope.

Lemma ltb_Fin (x y : Q) : (Fin x <? Fin y)%js = true <-> x < y.
Proof.
  cbn. rewrite Qlt_alt. destruct (x ?= y); split; congruence.
Qed.

Lemma leb_Fin (x y : Q) : (Fin x <=? Fin y)%js = true <-> x <= y.
Proof.
  cbn. rewrite Qle_alt. destruct (x ?= y); split; congruence.
Qed.

Lemma Math_max_Fin (a b : Q) :
  exists c, Math_max (Fin a) (Fin b) = Fin c /\ a <= c /\ b <= c /\ (c = a \/ c = b).
Proof.
  unfold Math_max. destruct (Fin a <? Fin b)%js eqn:E.
  - apply ltb_Fin in E. exists b. repeat split; try lra. now right.
  - exists a. repeat split; try lra; [|now left].
    destruct (Qlt_le_dec a b) as [H|H]; [|exact H].
    apply ltb_Fin in H. congruence.
Qed.

Lemma Math_min_Fin (a b : Q) :
  exists c, Math_min (Fin a) (Fin b) = Fin c /\ c <= a /\ c <= b /\ (c = a \/ c = b).
Proof.
  unfold Math_min. destruct (Fin b <? Fin a)%js eqn:E.
  - apply ltb_Fin in E. exists b. repeat split; try lra. now right.
  - exists a. repeat split; try lra; [|now left].
    destruct (Qlt_le_dec b a) as [H|H]; [|exact H].
    apply ltb_Fin in H. congruence.
Qed.

Lemma div_Fin_nonzero (x y : Q) : ~ y == 0 -> (Fin x / Fin y)%js = Fin (x / y).
Proof.
  intros Hy. cbn. destruct (Qcompare_spec y 0) as [H|H|H]; [contradiction| |]; reflexivity.
Qed.

(** The clamp [Math.max(0, Math.min(1, x))] of a number is in [[0,1]]. *)
Lemma clamp_range (x : jsnum) :
  Math_max (Fin 0) (Math_min (Fin 1) x) = NaN
  \/ exists c, Math_max (Fin 0) (Math_min (Fin 1) x) = Fin c /\ 0 <= c <= 1.
Proof.
  destruct x as [| | |q]; [left; reflexivity|right..].
  - exists 1. split; [reflexivity|lra].
  - exists 0. split; [reflexivity|lra].
  - destruct (Math_min_Fin 1 q) as (m & -> & Hm1 & Hm2 & _).
    destruct (Math_max_Fin 0 m) as (c & -> & Hc1 & Hc2 & [->| ->]); eexists; split; try reflexivity; lra.
Qed.

Lemma clamp_NInf : Math_max (Fin 0) (Math_min (Fin 1) NInf) = Fin 0.
Proof. reflexivity. Qed.

Lemma clamp_mono (x y : Q) :
  x <= y ->
  exists c d,
    Math_max (Fin 0) (Math_min (Fin 1) (Fin x)) = Fin c
    /\ Math_max (Fin 0) (Math_min (Fin 1) (Fin y)) = Fin d
    /\ c <= d.
Proof.
  intros Hxy.
  destruct (Math_min_Fin 1 x) as (m & -> & Hm1 & Hm2 & Hm).
  destruct (Math_min_Fin 1 y) as (n & -> & Hn1 & Hn2 & Hn).
  destruct (Math_max_Fin 0 m) as (c & -> & Hc1 & Hc2 & Hc).
  destruct (Math_max_Fin 0 n) as (d & -> & Hd1 & Hd2 & Hd).
  exists c, d. repeat split.
  destruct Hm, Hn, Hc, Hd; subst; lra.
Qed.

End NumberFacts.

(** ** Facts on the weight tables *)

Lemma lookup_table_cons (k c : jsstring) (v : jsnum) (l : list (jsstring * jsnum)) :
  (list_to_map ((k, v) :: l) : gmap jsstring jsnum) !! c
  = if decide (c = k) then Some v else (list_to_map l : gmap jsstring jsnum) !! c.
Proof.
  cbn [list_to_map foldr]. rewrite lookup_insert.
  cbn [fst snd]. destruct (decide (k = c)), (decide (c = k)); congruence.
Qed.

Lemma TYPE_WEIGHTS_lookup (category : jsstring) :
  default (Fin 0.5) (TYPE_WEIGHTS !! category) = Fin (type_weight_spec category).
Proof.
  unfold TYPE_WEIGHTS, type_weight_spec.
  rewrite !lookup_table_cons. cbn [list_to_map foldr]. rewrite lookup_empty.
  repeat (destruct (decide _); [reflexivity|]). reflexivity.
Qed.

Lemma CONCEPT_WEIGHTS_lookup (tag : jsstring) :
  default (Fin 0.5) (CONCEPT_WEIGHTS !! tag) = Fin (concept_weight_spec tag).
Proof.
  unfold CONCEPT_WEIGHTS, concept_weight_spec.
  rewrite !lookup_table_cons. cbn [list_to_map foldr]. rewrite lookup_empty.
  repeat (destruct (decide _); [reflexivity|]). reflexivity.
Qed.

Lemma type_weight_spec_range (category : jsstring) :
  (0.4 <= type_weight_spec category <= 1)%Q.
Proof.
  unfold type_weight_spec. repeat (destruct (decide _); [lra|]). lra.
Qed.

(** [Math.max(...ws)] over finite weights: the running maximum. *)
Lemma Math_max_run (ws : list Q) (start : Q) :
  exists m,
    fold_left JSNum.Math_max (map Fin ws) (Fin start) = Fin m
    /\ (m = start \/ In m ws)
    /\ (start <= m)%Q
    /\ Forall (fun w => (w <= m)%Q) ws.
Proof.
  revert start. induction ws as [|w ws IH]; intros start.
  - exists start. cbn. repeat split; [now left|lra|constructor].
  - cbn [map fold_left].
    destruct (Math_max_Fin start w) as (c & -> & Hc1 & Hc2 & Hc).
    destruct (IH c) as (m & Hm & Hin & Hle & Hall).
    exists m. split; [exact Hm|]. split; [|split].
    + destruct Hin as [->|Hin]; [|right; now right].
      destruct Hc as [->| ->]; [now left|right; now left].
    + lra.
    + constructor; [lra|exact Hall].
Qed.

Lemma Math_max_spread_weights (w : Q) (ws : list Q) :
  exists m,
    JSNum.Math_max_spread (map Fin (w :: ws)) = Fin m
    /\ In m (w :: ws)
    /\ Forall (fun w' => (w' <= m)%Q) (w :: ws).
Proof.
  unfold JSNum.Math_max_spread. cbn [map fold_left].
  change (JSNum.Math_max NInf (Fin w)) with (Fin w).
  destruct (Math_max_run ws w) as (m & Hm & Hin & Hle & Hall).
  exists m. split; [exact Hm|]. split.
  - destruct Hin as [->|Hin]; [now left|now right].
  - constructor; assumption.
Qed.

(** ** The scoring function *)

Section ScoringFacts.

Import JSNum.
Local Open Scope js_scope.

Lemma calculateImportanceScore_steps (obs : ObservationRecord) (now : Z) (maxAgeMs : jsnum) :
  calculateImportanceScore obs now maxAgeMs
  = n ← factsCount obs;
    Ok (content_bonus_and_clamp obs n (tag_step obs (score_after_age obs now maxAgeMs))).
Proof.
  unfold calculateImportanceScore, content_bonus_and_clamp, tag_step, score_after_age.
  rewrite TYPE_WEIGHTS_lookup. reflexivity.
Qed.

Lemma JSON_parse_truthy (text : jsstring) (l : list jsstring) :
  JSON_parse text = Some l -> truthy (Some text) = true.
Proof. destruct text; [discriminate|reflexivity]. Qed.

Lemma factsCount_Fin (obs : ObservationRecord) (n : jsnum) :
  factsCount obs = Ok n -> exists k : Q, n = Fin k.
Proof.
  unfold factsCount. destruct (truthy _); [destruct (JSON_parse _)|];
    intros [= <-]; eexists; reflexivity.
Qed.

Lemma content_bonus_Fin (obs : ObservationRecord) (k : Q) :
  exists c : Q, forall score,
    content_bonus_and_clamp obs (Fin k) score
    = Math_max (Fin 0) (Math_min (Fin 1) (score + Fin c)).
Proof.
  unfold content_bonus_and_clamp, of_nat, of_Z.
  rewrite !div_Fin_nonzero by (intros H; discriminate H).
  cbn [add]. rewrite div_Fin_nonzero by (intros H; discriminate H).
  destruct (Math_min_Fin 1
    ((inject_Z (Z.of_nat (narrativeLength obs)) / 500 + k / 5) / 2)) as (c & -> & _).
  exists (c * 0.1)%Q. reflexivity.
Qed.

Lemma positive_number (a : jsnum) :
  (Fin 0 <? a) = true -> a = PInf \/ exists m, a = Fin m /\ (0 < m)%Q.
Proof.
  destruct a as [| | |m]; try discriminate; [now left|].
  intros H. apply ltb_Fin in H. right. now exists m.
Qed.

(** After the age step the score is a finite number, and an older copy
    has no more than a younger one. *)
Lemma score_after_age_mono
    (obs1 obs2 : ObservationRecord) (now1 now2 : Z) (maxAgeMs : jsnum) :
  ObservationRecord.type obs1 = ObservationRecord.type obs2 ->
  (Fin 0 <? maxAgeMs) = true ->
  (now1 - ObservationRecord.created_at_epoch obs1
   <= now2 - ObservationRecord.created_at_epoch obs2)%Z ->
  exists p1 p2 : Q,
    score_after_age obs1 now1 maxAgeMs = Fin p1
    /\ score_after_age obs2 now2 maxAgeMs = Fin p2
    /\ (p2 <= p1)%Q.
Proof.
  intros Htype Hpos Hage. unfold score_after_age. rewrite <- Htype.
  pose proof (type_weight_spec_range (ObservationRecord.type obs1)) as Hw.
  set (w := type_weight_spec (ObservationRecord.type obs1)) in *.
  set (a1 := (now1 - ObservationRecord.created_at_epoch obs1)%Z) in *.
  set (a2 := (now2 - ObservationRecord.created_at_epoch obs2)%Z) in *.
  assert (Ha : (inject_Z a1 <= inject_Z a2)%Q) by (rewrite <- Zle_Qle; exact Hage).
  destruct (positive_number _ Hpos) as [-> | (m & -> & Hm)].
  - cbn [of_Z div sub neg add].
    destruct (Math_max_Fin 0 (1 + - 0)) as (d & -> & _ & _ & _).
    cbn [mul add]. do 2 eexists. split; [reflexivity|]. split; [reflexivity|]. lra.
  - unfold of_Z. rewrite !div_Fin_nonzero by lra. cbn [sub neg add].
    destruct (Math_max_Fin 0 (1 + - (inject_Z a1 / m))) as (d1 & -> & H1 & H1' & H1'').
    destruct (Math_max_Fin 0 (1 + - (inject_Z a2 / m))) as (d2 & -> & H2 & H2' & H2'').
    cbn [mul add]. do 2 eexists. split; [reflexivity|]. split; [reflexivity|].
    assert (Hdiv : (inject_Z a1 / m <= inject_Z a2 / m)%Q).
    { unfold Qdiv. apply Qmult_le_compat_r; [exact Ha|].
      apply Qlt_le_weak, Qinv_lt_0_compat, Hm. }
    assert (Hd : (d2 <= d1)%Q) by (destruct H1'', H2''; subst; lra).
    apply Qmult_le_l; [lra|]. lra.
Qed.

(** Under a non-zero [maxAgeMs] the score after the age step is finite. *)
Lemma score_after_age_Fin (obs : ObservationRecord) (now : Z) (maxAgeMs : jsnum) :
  nonzero_number maxAgeMs ->
  exists p : Q, score_after_age obs now maxAgeMs = Fin p.
Proof.
  intros Hm. unfold score_after_age, of_Z.
  destruct maxAgeMs as [| | |m]; [contradiction|..].
  - cbn [div sub neg add].
    destruct (Math_max_Fin 0 (1 + - 0)) as (d & -> & _). cbn. eexists; reflexivity.
  - cbn [div sub neg add].
    destruct (Math_max_Fin 0 (1 + - 0)) as (d & -> & _). cbn. eexists; reflexivity.
  - rewrite div_Fin_nonzero by exact Hm. cbn [sub neg add].
    destruct (Math_max_Fin 0 (1 + - (inject_Z (now - ObservationRecord.created_at_epoch obs) / m)))
      as (d & -> & _).
    cbn. eexists; reflexivity.
Qed.

End ScoringFacts.

Section ScoringClaims.

Import JSNum.
Local Open Scope js_scope.

Lemma malformed_concepts_are_skipped (obs : ObservationRecord) (now : Z) (maxAgeMs : jsnum) :
  JSON_parse (default [] (ObservationRecord.concepts obs)) = None ->
  calculateImportanceScore obs now maxAgeMs
  = n ← factsCount obs;
    Ok (content_bonus_and_clamp obs n (score_after_age obs now maxAgeMs)).
Proof.
  intros H. rewrite calculateImportanceScore_steps. unfold tag_step. rewrite H.
  destruct (truthy _); reflexivity.
Qed.

Lemma malformed_facts_throw (obs : ObservationRecord) (now : Z) (maxAgeMs : jsnum) :
  truthy (ObservationRecord.facts obs) = true ->
  JSON_parse (default [] (ObservationRecord.facts obs)) = None ->
  calculateImportanceScore obs now maxAgeMs = Throw SyntaxError.
Proof.
  intros Ht H. rewrite calculateImportanceScore_steps. unfold factsCount.
  rewrite Ht, H. reflexivity.
Qed.

(** C5 at the failing input: an unparseable concepts field is skipped and
    the observation is still scored, but an unparseable facts field makes
    [calculateImportanceScore] throw, and the throw aborts the whole
    [analyze] pass over a store that holds such an eligible observation. *)
Theorem malformed_facts_abort_analyze :
  calculateImportanceScore obs_bad_concepts (200 * day_ms) (days_to_ms (Fin 180))
  = Ok (Fin (282355200000000000000 # 777600000000000000000))
  /\ calculateImportanceScore obs_bad_facts (200 * day_ms) (days_to_ms (Fin 180))
     = Throw SyntaxError
  /\ analyze {| db := [obs_tagged; obs_bad_facts] |} (200 * day_ms) ShrinkOptions.empty
     = Throw SyntaxError.
Proof. repeat split; vm_compute; reflexivity. Qed.








End ScoringClaims.

(** ** Deletion *)

Section Deletion.

Lemma filter_keeps_all {A : Type} (keep : A -> bool) (l : list A) :
  existsb (fun x => negb (keep x)) l = false -> List.filter keep l = l.
Proof.
  induction l as [|x l IH]; [reflexivity|].
  cbn. destruct (keep x); cbn; [|discriminate].
  intros H. now rewrite IH.
Qed.

Lemma existsb_filter {A : Type} (hit keep : A -> bool) (l : list A) :
  existsb hit (List.filter keep l) = existsb (fun x => hit x && keep x) l.
Proof.
  induction l as [|x l IH]; [reflexivity|].
  cbn. destruct (keep x); cbn; rewrite IH.
  - now rewrite andb_true_r.
  - now rewrite andb_false_r.
Qed.

Lemma deleteObservationById_missing (store : SessionStore) (id : Z) :
  has_id store id = false -> deleteObservationById store id = (false, store).
Proof.
  unfold has_id, deleteObservationById. intros H. rewrite H. f_equal.
  destruct store as [rows]. cbn in *. f_equal.
  apply filter_keeps_all.
  rewrite <- H. clear H. induction rows as [|obs rows IH]; [reflexivity|].
  cbn. now rewrite negb_involutive, IH.
Qed.

Lemma deleteObservationById_removes (store : SessionStore) (id id' : Z) :
  has_id (snd (deleteObservationById store id)) id'
  = has_id store id' && negb (id' =? id)%Z.
Proof.
  unfold has_id, deleteObservationById. cbn [snd db].
  rewrite existsb_filter. revert id'. induction (db store) as [|obs rows IH]; intros id'.
  - reflexivity.
  - cbn. rewrite IH.
    destruct (ObservationRecord.id obs =? id')%Z eqn:E1; cbn.
    + apply Z.eqb_eq in E1. rewrite E1.
      destruct (id' =? id)%Z; cbn; [|reflexivity].
      now rewrite andb_false_r.
    + reflexivity.
Qed.

Lemma executeShrink_from_counts (store : SessionStore) (ids : list Z) (d f : nat) :
  executeShrink_from store ids d f
  = ({| deleted := d + deleted (fst (executeShrink store ids));
        failed := f + failed (fst (executeShrink store ids)) |},
     snd (executeShrink store ids)).
Proof.
  unfold executeShrink. revert store d f.
  induction ids as [|id ids IH]; intros store d f.
  - cbn. now rewrite !Nat.add_0_r.
  - cbn [executeShrink_from].
    destruct (deleteObservationById store id) as [[|] store'].
    + rewrite (IH store' (S d) f), (IH store' 1%nat 0%nat). cbn [fst snd deleted failed].
      f_equal. f_equal; lia.
    + rewrite (IH store' d (S f)), (IH store' 0%nat 1%nat). cbn [fst snd deleted failed].
      f_equal. f_equal; lia.
Qed.

Lemma executeShrink_cons (store : SessionStore) (id : Z) (ids : list Z) :
  executeShrink store (id :: ids)
  = let (success, store') := deleteObservationById store id in
    let (counts, store'') := executeShrink store' ids in
    ({| deleted := (if success then 1 else 0) + deleted counts;
        failed := (if success then 0 else 1) + failed counts |}, store'').
Proof.
  unfold executeShrink at 1. cbn [executeShrink_from].
  destruct (deleteObservationById store id) as [[|] store'];
    rewrite executeShrink_from_counts; destruct (executeShrink store' ids); reflexivity.
Qed.

Lemma executeShrink_sum (store : SessionStore) (ids : list Z) :
  deleted (fst (executeShrink store ids)) + failed (fst (executeShrink store ids))
  = length ids.
Proof.
  revert store. induction ids as [|id ids IH]; intros store; [reflexivity|].
  rewrite executeShrink_cons.
  destruct (deleteObservationById store id) as [success store'].
  specialize (IH store'). destruct (executeShrink store' ids) as [counts store''].
  cbn [fst snd deleted failed length] in *. destruct success; lia.
Qed.

Lemma executeShrink_app (store : SessionStore) (ids1 ids2 : list Z) :
  executeShrink store (ids1 ++ ids2)
  = let (counts1, store1) := executeShrink store ids1 in
    let (counts2, store2) := executeShrink store1 ids2 in
    ({| deleted := deleted counts1 + deleted counts2;
        failed := failed counts1 + failed counts2 |}, store2).
Proof.
  revert store. induction ids1 as [|id ids1 IH]; intros store.
  - cbn [app]. change (executeShrink store []) with ({| deleted := 0; failed := 0 |}, store).
    cbv beta iota. destruct (executeShrink store ids2) as [[d f] s]. reflexivity.
  - cbn [app]. rewrite !executeShrink_cons.
    destruct (deleteObservationById store id) as [success store']. rewrite IH.
    destruct (executeShrink store' ids1) as [counts1 store1].
    destruct (executeShrink store1 ids2) as [counts2 store2].
    cbn [deleted failed]. f_equal. f_equal; lia.
Qed.

Lemma executeShrink_has_id (store : SessionStore) (ids : list Z) (id : Z) :
  has_id (snd (executeShrink store ids)) id
  = has_id store id && negb (existsb (Z.eqb id) ids).
Proof.
  revert store. induction ids as [|i ids IH]; intros store.
  - cbn. now rewrite andb_true_r.
  - rewrite executeShrink_cons.
    pose proof (deleteObservationById_removes store i id) as Hdel.
    destruct (deleteObservationById store i) as [success store'].
    specialize (IH store'). destruct (executeShrink store' ids) as [counts store''].
    cbn [fst snd existsb] in *. rewrite IH, Hdel.
    destruct (has_id store id), (id =? i)%Z, (existsb (Z.eqb id) ids); reflexivity.
Qed.

Lemma executeShrink_all_missing (store : SessionStore) (ids : list Z) :
  (forall id, In id ids -> has_id store id = false) ->
  executeShrink store ids = ({| deleted := 0; failed := length ids |}, store).
Proof.
  induction ids as [|id ids IH]; intros Hmiss; [reflexivity|].
  rewrite executeShrink_cons, deleteObservationById_missing by (apply Hmiss; now left).
  rewrite IH by (intros i Hi; apply Hmiss; now right).
  reflexivity.
Qed.

(** C4: [executeShrink] attempts every deletion whatever the outcome of the
    others: the attempts on [ids2] after [ids1] are those of a run of their
    own on the store [ids1] left, and no listed identifier remains; the
    counts add up to the number of identifiers; an identifier that is not
    (or no longer) in the store counts as a failure and leaves the store as
    it is. *)
Theorem executeShrink_independent_attempts :
  forall (sessionStore : SessionStore) (observationIds : list Z),
    deleted (fst (executeShrink sessionStore observationIds))
    + failed (fst (executeShrink sessionStore observationIds))
    = length observationIds
    /\ (forall ids1 ids2, observationIds = ids1 ++ ids2 ->
          let (counts1, store1) := executeShrink sessionStore ids1 in
          let (counts2, store2) := executeShrink store1 ids2 in
          executeShrink sessionStore observationIds
          = ({| deleted := deleted counts1 + deleted counts2;
                failed := failed counts1 + failed counts2 |}, store2))
    /\ (forall id, In id observationIds ->
          has_id (snd (executeShrink sessionStore observationIds)) id = false)
    /\ (forall id, has_id sessionStore id = false ->
          executeShrink sessionStore [id] = ({| deleted := 0; failed := 1 |}, sessionStore))
    /\ executeShrink (snd (executeShrink sessionStore observationIds)) observationIds
       = ({| deleted := 0; failed := length observationIds |},
          snd (executeShrink sessionStore observationIds)).
Proof.
  intros store ids.
  assert (Hgone : forall id, In id ids -> has_id (snd (executeShrink store ids)) id = false).
  { intros id Hin. rewrite executeShrink_has_id.
    assert (H : existsb (Z.eqb id) ids = true).
    { apply existsb_exists. exists id. split; [exact Hin|apply Z.eqb_refl]. }
    rewrite H. apply andb_false_r. }
  split; [apply executeShrink_sum|]. split; [|split; [exact Hgone|split]].
  - intros ids1 ids2 ->. rewrite executeShrink_app.
    destruct (executeShrink store ids1) as [counts1 store1].
    destruct (executeShrink store1 ids2) as [counts2 store2]. reflexivity.
  - intros id Hid. apply (executeShrink_all_missing store [id]).
    intros i [<-|[]]. exact Hid.
  - apply executeShrink_all_missing, Hgone.
Qed.

Lemma executeShrink_independent_attempts_witness :
  deleted (fst (executeShrink sample_store [7; 9; 7; 2]%Z))
  + failed (fst (executeShrink sample_store [7; 9; 7; 2]%Z)) = 4%nat
  /\ has_id (snd (executeShrink sample_store [7; 9; 7; 2]%Z)) 2 = false
  /\ executeShrink sample_store [9%Z] = ({| deleted := 0; failed := 1 |}, sample_store).
Proof.
  destruct (executeShrink_independent_attempts sample_store [7; 9; 7; 2]%Z)
    as (Hsum & _ & Hgone & _).
  destruct (executeShrink_independent_attempts sample_store [9%Z])
    as (_ & _ & _ & Hmissing & _).
  split; [exact Hsum|]. split.
  - apply Hgone. cbn. tauto.
  - apply Hmissing. reflexivity.
Defined.

End Deletion.

(** ** Stable sorting *)

Section StableSort.

Context {A : Type} (before : A -> A -> bool).

Lemma insert_sorted_Permutation (x : A) (l : list A) :
  Permutation (insert_sorted before x l) (x :: l).
Proof.
  induction l as [|e l IH]; [reflexivity|].
  cbn. destruct (before e x); [|reflexivity].
  rewrite IH. apply perm_swap.
Qed.

Lemma stable_sort_Permutation (l : list A) : Permutation (stable_sort before l) l.
Proof.
  induction l as [|x l IH]; [reflexivity|].
  cbn. rewrite insert_sorted_Permutation. now constructor.
Qed.

(** The elements the order is known on, and their keys. *)
Context (good : A -> Prop) (key : A -> Q).
Hypothesis before_key :
  forall a b, good a -> good b -> (before a b = true <-> (key a < key b)%Q).

Local Abbreviation le_key := (key_le key).

Lemma insert_sorted_StronglySorted (x : A) (l : list A) :
  good x -> Forall good l ->
  StronglySorted le_key l -> StronglySorted le_key (insert_sorted before x l).
Proof.
  intros Hx Hl Hs. induction Hs as [|e l Hs IH He].
  - repeat constructor.
  - apply Forall_cons_iff in Hl as [Hge Hgl]. cbn.
    destruct (before e x) eqn:E.
    + apply before_key in E; [|assumption..].
      constructor; [apply IH, Hgl|].
      eapply Permutation_Forall; [symmetry; apply insert_sorted_Permutation|].
      constructor; [apply Qlt_le_weak, E|exact He].
    + assert (Hxe : (key x <= key e)%Q).
      { apply Qnot_lt_le. intros H. apply before_key in H; [congruence|assumption..]. }
      constructor; [constructor; assumption|].
      constructor; [exact Hxe|].
      eapply List.Forall_impl; [|exact He].
      intros y Hy. unfold key_le in *. eapply Qle_trans; eassumption.
Qed.

Lemma stable_sort_good (l : list A) : Forall good l -> Forall good (stable_sort before l).
Proof.
  intros H. eapply Permutation_Forall; [symmetry; apply stable_sort_Permutation|exact H].
Qed.

Lemma stable_sort_StronglySorted (l : list A) :
  Forall good l -> StronglySorted le_key (stable_sort before l).
Proof.
  induction l as [|x l IH]; intros Hl; [constructor|].
  apply Forall_cons_iff in Hl as [Hx Hl]. cbn.
  apply insert_sorted_StronglySorted; [exact Hx|apply stable_sort_good, Hl|apply IH, Hl].
Qed.

(** Stability: the elements of one key value keep their relative order. *)
Lemma insert_sorted_stable (q : Q) (x : A) (l : list A) :
  good x -> Forall good l ->
  List.filter (fun a => Qeq_bool (key a) q) (insert_sorted before x l)
  = List.filter (fun a => Qeq_bool (key a) q) (x :: l).
Proof.
  intros Hx Hl. induction l as [|e l IH]; [reflexivity|].
  apply Forall_cons_iff in Hl as [He Hl]. cbn [insert_sorted].
  destruct (before e x) eqn:E; [|reflexivity].
  apply before_key in E; [|assumption..].
  cbn [List.filter] in *. rewrite (IH Hl).
  destruct (Qeq_bool (key e) q) eqn:Ee; [|reflexivity].
  destruct (Qeq_bool (key x) q) eqn:Ex; [|reflexivity].
  apply Qeq_bool_iff in Ee, Ex. rewrite Ee, Ex in E. now apply Qlt_irrefl in E.
Qed.

Lemma stable_sort_stable (q : Q) (l : list A) :
  Forall good l ->
  List.filter (fun a => Qeq_bool (key a) q) (stable_sort before l)
  = List.filter (fun a => Qeq_bool (key a) q) l.
Proof.
  induction l as [|x l IH]; intros Hl; [reflexivity|].
  apply Forall_cons_iff in Hl as [Hx Hl]. cbn [stable_sort fold_right].
  rewrite insert_sorted_stable; [|exact Hx|apply stable_sort_good, Hl].
  cbn [List.filter]. fold (stable_sort before l). now rewrite (IH Hl).
Qed.

End StableSort.

(** ** The analysis *)

Section AnalysisFacts.

Import JSNum.
Local Open Scope js_scope.

Lemma filter_Permutation {A : Type} (f : A -> bool) (l l' : list A) :
  Permutation l l' -> Permutation (List.filter f l) (List.filter f l').
Proof.
  induction 1 as [|x l l' _ IH|x y l|l l' l'' _ IH1 _ IH2]; cbn.
  - constructor.
  - destruct (f x); [now constructor|exact IH].
  - destruct (f x), (f y); try reflexivity. apply perm_swap.
  - now transitivity (List.filter f l').
Qed.

Lemma In_firstn {A : Type} (x : A) (n : nat) (l : list A) :
  In x (firstn n l) -> In x l.
Proof.
  revert l. induction n as [|n IH]; intros [|y l]; cbn; try tauto.
  intros [->|H]; [now left|right; now apply IH].
Qed.

Lemma filter_filter_andb {A : Type} (f g : A -> bool) (l : list A) :
  List.filter g (List.filter f l) = List.filter (fun x => f x && g x) l.
Proof.
  induction l as [|x l IH]; [reflexivity|].
  cbn. destruct (f x); cbn; [destruct (g x)|]; now rewrite IH.
Qed.

Lemma analyze_body_step
    (now : Z) (maxAgeMs minScore : jsnum)
    (acc : list ShrinkCandidate) (obs : ObservationRecord) :
  analyze_body now maxAgeMs minScore acc obs
  = score ← calculateImportanceScore obs now maxAgeMs;
    Ok (if below_minScore now maxAgeMs minScore obs
        then acc ++ [candidate_of now maxAgeMs obs] else acc).
Proof.
  unfold analyze_body, below_minScore, candidate_of, score_or_NaN.
  destruct (calculateImportanceScore obs now maxAgeMs) as [score|e];
    cbn [mbind outcome_bind]; [|reflexivity].
  destruct (score <? minScore); reflexivity.
Qed.

Lemma for_of_analyze_body
    (now : Z) (maxAgeMs minScore : jsnum)
    (observations : list ObservationRecord) (acc candidates : list ShrinkCandidate) :
  for_of observations (analyze_body now maxAgeMs minScore) acc = Ok candidates ->
  candidates
  = acc ++ map (candidate_of now maxAgeMs)
             (List.filter (below_minScore now maxAgeMs minScore) observations).
Proof.
  revert acc. induction observations as [|obs observations IH]; intros acc.
  - cbn. intros [= <-]. now rewrite app_nil_r.
  - cbn [for_of List.filter]. rewrite analyze_body_step.
    destruct (calculateImportanceScore obs now maxAgeMs) as [score|e];
      cbn [mbind outcome_bind]; [|discriminate].
    destruct (below_minScore now maxAgeMs minScore obs); intros H; apply IH in H.
    + rewrite H, <- app_assoc. reflexivity.
    + exact H.
Qed.

(** The code computes its result from the candidate pool. *)
Lemma analyze_Ok (sessionStore : SessionStore) (now : Z) (options : ShrinkOptions)
    (r : ShrinkAnalysis) :
  analyze sessionStore now options = Ok r ->
  ShrinkAnalysis.totalObservations r = count_observations sessionStore (scope_of options)
  /\ ShrinkAnalysis.candidates r
     = Array_slice0
         (Array_sort (fun a b => ShrinkCandidate.score a - ShrinkCandidate.score b)
            (candidate_pool sessionStore now options))
         (targetCount_of (ShrinkAnalysis.totalObservations r) options)
  /\ ShrinkAnalysis.observationsToRemove r = length (ShrinkAnalysis.candidates r)
  /\ ShrinkAnalysis.totalTokensSaved r
     = fold_left (fun sum c => sum + ShrinkCandidate.tokenCount c)
         (ShrinkAnalysis.candidates r) (Fin 0).
Proof.
  unfold analyze.
  destruct (for_of _ _ _) as [candidates|e] eqn:Ef; cbn [mbind outcome_bind]; [|discriminate].
  apply for_of_analyze_body in Ef. cbn [app] in Ef.
  intros [= <-]. fields. rewrite Ef. repeat split.
Qed.

(** [analyze] returns unless an eligible observation has an unparseable
    facts field. *)
Lemma for_of_analyze_body_Ok
    (now : Z) (maxAgeMs minScore : jsnum)
    (observations : list ObservationRecord) (acc : list ShrinkCandidate) :
  Forall (fun obs => exists n, factsCount obs = Ok n) observations ->
  exists candidates,
    for_of observations (analyze_body now maxAgeMs minScore) acc = Ok candidates.
Proof.
  intros Hall. revert acc. induction Hall as [|obs observations (n & Hn) _ IH]; intros acc.
  - now exists acc.
  - cbn [for_of]. rewrite analyze_body_step.
    rewrite calculateImportanceScore_steps, Hn. cbn [mbind outcome_bind]. apply IH.
Qed.

Lemma count_observations_in_scope (sessionStore : SessionStore) (options : ShrinkOptions) :
  count_observations sessionStore (scope_of options)
  = length (List.filter (in_scope options) (db sessionStore)).
Proof.
  unfold count_observations, in_scope. destruct (scope_of options); [reflexivity|].
  induction (db sessionStore) as [|obs rows IH]; [reflexivity|]. cbn. now rewrite IH.
Qed.

Lemma select_observations_Permutation
    (sessionStore : SessionStore) (now : Z) (options : ShrinkOptions) :
  Permutation
    (select_observations sessionStore (of_Z now - minAgeMs_of options) (scope_of options))
    (List.filter (eligible now options) (db sessionStore)).
Proof. apply stable_sort_Permutation. Qed.

Lemma calculateImportanceScore_range
    (obs : ObservationRecord) (now : Z) (maxAgeMs : jsnum) (score : jsnum) :
  calculateImportanceScore obs now maxAgeMs = Ok score ->
  score = NaN \/ exists q : Q, score = Fin q /\ (0 <= q <= 1)%Q.
Proof.
  rewrite calculateImportanceScore_steps.
  destruct (factsCount obs) as [n|e]; cbn [mbind outcome_bind]; [|discriminate].
  intros [= <-]. apply clamp_range.
Qed.

(** Where every candidate of the pool comes from. *)
Lemma candidate_pool_origin
    (sessionStore : SessionStore) (now : Z) (options : ShrinkOptions) (c : ShrinkCandidate) :
  In c (candidate_pool sessionStore now options) ->
  exists obs,
    In obs (db sessionStore)
    /\ eligible now options obs = true
    /\ c = candidate_of now (maxAgeMs_of options) obs
    /\ calculateImportanceScore obs now (maxAgeMs_of options) = Ok (ShrinkCandidate.score c)
    /\ (ShrinkCandidate.score c <? minScore_of options) = true
    /\ unit_score c.
Proof.
  unfold candidate_pool. intros Hin.
  apply in_map_iff in Hin as (obs & <- & Hin).
  apply filter_In in Hin as [Hin Hbelow].
  apply (Permutation_in _ (select_observations_Permutation sessionStore now options)) in Hin.
  apply filter_In in Hin as [Hin Hel].
  exists obs. split; [exact Hin|]. split; [exact Hel|]. split; [reflexivity|].
  unfold below_minScore in Hbelow. unfold unit_score, candidate_of. fields.
  unfold score_or_NaN in *.
  destruct (calculateImportanceScore obs now (maxAgeMs_of options)) as [score|e] eqn:Es;
    [|discriminate].
  split; [reflexivity|]. split; [exact Hbelow|].
  destruct (calculateImportanceScore_range _ _ _ _ Es) as [->|H]; [discriminate|exact H].
Qed.

Lemma candidate_pool_unit (sessionStore : SessionStore) (now : Z) (options : ShrinkOptions) :
  Forall unit_score (candidate_pool sessionStore now options).
Proof.
  apply List.Forall_forall. intros c Hc.
  now destruct (candidate_pool_origin _ _ _ _ Hc) as (_ & _ & _ & _ & _ & _ & H).
Qed.

Lemma comparefn_score (a b : ShrinkCandidate) :
  unit_score a -> unit_score b ->
  (ShrinkCandidate.score a - ShrinkCandidate.score b <? Fin 0) = true
  <-> (score_value a < score_value b)%Q.
Proof.
  intros (x & Hx & _) (y & Hy & _). unfold score_value. rewrite Hx, Hy.
  cbn [sub neg add]. rewrite ltb_Fin. split; intros H; lra.
Qed.

End AnalysisFacts.

Section Selection.

Import JSNum.
Local Open Scope js_scope.

Lemma targetCount_shape (y : jsnum) :
  let targetCount := Math_max (Fin 1) (Math_floor y) in
  targetCount = NaN \/ targetCount = PInf
  \/ exists n : nat, (1 <= n)%nat /\ targetCount = of_nat n.
Proof.
  destruct y as [| | |q]; cbn zeta.
  - now left.
  - right. now left.
  - right. right. exists 1%nat. split; [lia|reflexivity].
  - right. right. cbn [Math_floor]. unfold of_Z, Math_max.
    destruct (Fin 1 <? Fin (inject_Z (Qfloor q))) eqn:E.
    + apply ltb_Fin in E. change 1%Q with (inject_Z 1) in E. rewrite <- Zlt_Qlt in E.
      exists (Z.to_nat (Qfloor q)). split; [lia|].
      unfold of_nat, of_Z. rewrite Z2Nat.id by lia. reflexivity.
    + exists 1%nat. split; [lia|reflexivity].
Qed.

Lemma Array_slice0_NaN {A : Type} (arr : list A) : Array_slice0 arr NaN = [].
Proof.
  unfold Array_slice0. cbn [ToIntegerOrInfinity]. cbn [Z.ltb Z.compare].
  rewrite Z.min_l by lia. reflexivity.
Qed.

Lemma Array_slice0_PInf {A : Type} (arr : list A) : Array_slice0 arr PInf = arr.
Proof.
  unfold Array_slice0. cbn [ToIntegerOrInfinity]. rewrite Nat2Z.id. apply firstn_all.
Qed.

Lemma Array_slice0_of_nat {A : Type} (arr : list A) (n : nat) :
  Array_slice0 arr (of_nat n) = firstn n arr.
Proof.
  unfold Array_slice0, of_nat, of_Z. cbn [ToIntegerOrInfinity].
  rewrite Qfloor_Z, Qceiling_Z.
  replace (match (inject_Z (Z.of_nat n) ?= 0)%Q with Lt => Z.of_nat n | _ => Z.of_nat n end)
    with (Z.of_nat n) by (destruct (_ ?= _)%Q; reflexivity).
  destruct (Z.ltb_spec (Z.of_nat n) 0) as [H|_]; [lia|].
  destruct (Nat.le_gt_cases n (length arr)) as [H|H].
  - rewrite Z.min_l by lia. now rewrite Nat2Z.id.
  - rewrite Z.min_r by lia. rewrite Nat2Z.id, firstn_all.
    symmetry. apply firstn_all2. lia.
Qed.

Lemma fold_left_tokens (l : list ShrinkCandidate) (a : Q) :
  Forall (fun c => exists t : Q, ShrinkCandidate.tokenCount c = Fin t) l ->
  exists x y : Q,
    fold_left (fun sum c => sum + ShrinkCandidate.tokenCount c) l (Fin a) = Fin x
    /\ sum_tokens l = Fin y
    /\ (x == a + y)%Q.
Proof.
  intros Hl. revert a. induction Hl as [|c l (t & Ht) _ IH]; intros a.
  - exists a, 0%Q. repeat split. lra.
  - cbn [fold_left sum_tokens fold_right]. rewrite Ht. cbn [add].
    destruct (IH (a + t)%Q) as (x & y & Hx & Hy & Hxy).
    fold (sum_tokens l). rewrite Hx, Hy. cbn [add].
    exists x, (t + y)%Q. repeat split. lra.
Qed.

Lemma StronglySorted_score_le (l : list ShrinkCandidate) :
  Forall unit_score l ->
  StronglySorted (key_le score_value) l -> StronglySorted score_le l.
Proof.
  intros Hl Hs. induction Hs as [|c l Hs IH Hc]; [constructor|].
  apply Forall_cons_iff in Hl as [(x & Hx & _) Hl].
  constructor; [apply IH, Hl|].
  apply List.Forall_forall. intros d Hd.
  rewrite List.Forall_forall in Hc, Hl.
  specialize (Hc d Hd). destruct (Hl d Hd) as (y & Hy & _).
  unfold key_le, score_le, score_value in *. rewrite Hx, Hy in *. now apply leb_Fin.
Qed.

(** The sorted pool [analyze] truncates. *)
Lemma sorted_pool (pool : list ShrinkCandidate) :
  Forall unit_score pool ->
  let sorted :=
    Array_sort (fun a b => ShrinkCandidate.score a - ShrinkCandidate.score b) pool in
  Permutation sorted pool
  /\ StronglySorted score_le sorted
  /\ (forall q, with_score q sorted = with_score q pool).
Proof.
  intros Hpool sorted. unfold sorted, Array_sort. split; [apply stable_sort_Permutation|].
  split.
  - apply StronglySorted_score_le.
    + eapply Permutation_Forall; [symmetry; apply stable_sort_Permutation|exact Hpool].
    + apply (stable_sort_StronglySorted _ unit_score score_value); [|exact Hpool].
      intros a b. apply comparefn_score.
  - intros q. apply (stable_sort_stable _ unit_score score_value); [|exact Hpool].
    intros a b. apply comparefn_score.
Qed.

End Selection.

Section SelectionClaims.

Import JSNum.
Local Open Scope js_scope.

Lemma candidates_tokens (sessionStore : SessionStore) (now : Z) (options : ShrinkOptions)
    (l : list ShrinkCandidate) :
  (forall c, In c l -> In c (candidate_pool sessionStore now options)) ->
  Forall (fun c => exists t : Q, ShrinkCandidate.tokenCount c = Fin t) l.
Proof.
  intros Hsub. apply List.Forall_forall. intros c Hc.
  destruct (candidate_pool_origin _ _ _ _ (Hsub c Hc)) as (obs & _ & _ & -> & _).
  unfold candidate_of. fields. rewrite estimateTokens_value. eexists. reflexivity.
Qed.

Lemma candidates_from_pool (sessionStore : SessionStore) (now : Z) (options : ShrinkOptions)
    (r : ShrinkAnalysis) :
  analyze sessionStore now options = Ok r ->
  forall c, In c (ShrinkAnalysis.candidates r) ->
            In c (candidate_pool sessionStore now options).
Proof.
  intros Hr c Hc. destruct (analyze_Ok _ _ _ _ Hr) as (_ & Hcands & _).
  rewrite Hcands in Hc. unfold Array_slice0 in Hc. apply In_firstn in Hc.
  eapply Permutation_in; [apply stable_sort_Permutation|exact Hc].
Qed.

Lemma analyze_returns (sessionStore : SessionStore) (now : Z) (options : ShrinkOptions) :
  (forall obs, In obs (db sessionStore) -> eligible now options obs = true ->
               exists n, factsCount obs = Ok n) ->
  exists r, analyze sessionStore now options = Ok r.
Proof.
  intros Hfacts. unfold analyze.
  destruct (for_of_analyze_body_Ok now
              (days_to_ms (default (Fin 180) (ShrinkOptions.maxAge options)))
              (default (Fin 0.6) (ShrinkOptions.minScore options))
              (select_observations sessionStore (of_Z now - minAgeMs_of options)
                 (scope_of options)) []) as (candidates & Hc).
  - apply List.Forall_forall. intros obs Hin.
    apply (Permutation_in _ (select_observations_Permutation sessionStore now options)) in Hin.
    apply filter_In in Hin as [Hin Hel]. now apply Hfacts.
  - unfold minAgeMs_of, scope_of in Hc. rewrite Hc. cbn [mbind outcome_bind].
    eexists. reflexivity.
Qed.





End SelectionClaims.

(** * Further properties of the scoring *)

Section ScoreBounds.

Import JSNum.
Local Open Scope js_scope.

Lemma concept_weight_spec_range (tag : jsstring) :
  (0.4 <= concept_weight_spec tag <= 1)%Q.
Proof.
  unfold concept_weight_spec. repeat (destruct (decide _); [lra|]). lra.
Qed.

(** The clamp of a finite number. *)
Lemma clamp_Fin (x : Q) :
  exists c : Q,
    Math_max (Fin 0) (Math_min (Fin 1) (Fin x)) = Fin c
    /\ (0 <= c <= 1)%Q
    /\ (x <= 1 -> x <= c)%Q
    /\ (0 <= x -> c <= x)%Q
    /\ (1 <= x -> 1 <= c)%Q.
Proof.
  destruct (Math_min_Fin 1 x) as (m & -> & Hm1 & Hm2 & Hm).
  destruct (Math_max_Fin 0 m) as (c & -> & Hc1 & Hc2 & Hc).
  exists c. split; [reflexivity|].
  destruct Hm, Hc; subst; repeat split; intros; lra.
Qed.

(** What the tag step does to a finite running score: nothing, or it sends
    it to [-Infinity] (empty tag list), or it adds a finite adjustment. *)
Lemma tag_step_cases (obs : ObservationRecord) :
  (forall s, tag_step obs s = s)
  \/ (JSON_parse (default [] (ObservationRecord.concepts obs)) = Some []
      /\ forall p : Q, tag_step obs (Fin p) = NInf)
  \/ (exists m : Q,
        (0.4 <= m <= 1)%Q
        /\ forall p : Q, tag_step obs (Fin p) = Fin (p + (m + - 0.5) * 0.2)).
Proof.
  unfold tag_step. destruct (truthy _); [|now left].
  destruct (JSON_parse _) as [[|tag tags]|]; [| |now left].
  - right. left. split; [reflexivity|]. intros p. reflexivity.
  - right. right.
    rewrite (map_ext _ (fun c => Fin (concept_weight_spec c)) CONCEPT_WEIGHTS_lookup).
    rewrite <- (map_map concept_weight_spec Fin).
    destruct (Math_max_spread_weights (concept_weight_spec tag) (map concept_weight_spec tags))
      as (m & Hm & Hin & _).
    exists m. split.
    + change (In m (map concept_weight_spec (tag :: tags))) in Hin.
      apply in_map_iff in Hin as (t & <- & _). apply concept_weight_spec_range.
    + intros p. cbn [map] in Hm |- *. rewrite Hm. reflexivity.
Qed.

Lemma factsCount_nonneg (obs : ObservationRecord) (n : jsnum) :
  factsCount obs = Ok n -> exists k : Q, n = Fin k /\ (0 <= k)%Q.
Proof.
  unfold factsCount. destruct (truthy _); [destruct (JSON_parse _) as [facts|]|];
    intros [= <-].
  - eexists. split; [reflexivity|]. change 0%Q with (inject_Z 0).
    rewrite <- Zle_Qle. lia.
  - exists 0%Q. split; [reflexivity|lra].
Qed.

(** The content bonus is between 0 and 0.1 and grows with the narrative
    length and the number of facts. *)
Lemma content_bonus_mono (obs1 obs2 : ObservationRecord) (k1 k2 : Q) :
  (narrativeLength obs1 <= narrativeLength obs2)%nat ->
  (0 <= k1 <= k2)%Q ->
  exists c1 c2 : Q,
    (forall score,
        content_bonus_and_clamp obs1 (Fin k1) score
        = Math_max (Fin 0) (Math_min (Fin 1) (score + Fin c1)))
    /\ (forall score,
        content_bonus_and_clamp obs2 (Fin k2) score
        = Math_max (Fin 0) (Math_min (Fin 1) (score + Fin c2)))
    /\ (0 <= c1 <= c2)%Q /\ (c2 <= 0.1)%Q.
Proof.
  intros Hlen Hk. unfold content_bonus_and_clamp, of_nat, of_Z.
  rewrite !div_Fin_nonzero by (intros H; discriminate H).
  cbn [add]. rewrite !div_Fin_nonzero by (intros H; discriminate H).
  set (l1 := inject_Z (Z.of_nat (narrativeLength obs1))).
  set (l2 := inject_Z (Z.of_nat (narrativeLength obs2))).
  assert (Hl1 : (0 <= l1)%Q).
  { unfold l1. change 0%Q with (inject_Z 0). rewrite <- Zle_Qle. lia. }
  assert (Hl : (l1 <= l2)%Q) by (unfold l1, l2; rewrite <- Zle_Qle; lia).
  assert (Hx1 : (0 <= (l1 / 500 + k1 / 5) / 2)%Q).
  { unfold Qdiv. repeat apply Qmult_le_0_compat;
      try (apply Qle_trans with (0 + 0)%Q; [lra|apply Qplus_le_compat]);
      try apply Qmult_le_0_compat; try lra; discriminate. }
  assert (Hx : ((l1 / 500 + k1 / 5) / 2 <= (l2 / 500 + k2 / 5) / 2)%Q).
  { unfold Qdiv. apply Qmult_le_compat_r; [|discriminate].
    apply Qplus_le_compat; (apply Qmult_le_compat_r; [lra|discriminate]). }
  destruct (Math_min_Fin 1 ((l1 / 500 + k1 / 5) / 2)) as (m1 & -> & H1 & H1' & H1'').
  destruct (Math_min_Fin 1 ((l2 / 500 + k2 / 5) / 2)) as (m2 & -> & H2 & H2' & H2'').
  exists (m1 * 0.1)%Q, (m2 * 0.1)%Q.
  split; [reflexivity|]. split; [reflexivity|].
  destruct H1'', H2''; subst; lra.
Qed.

(** The score after the age step is the category base times a factor of at
    least one half. *)
Lemma score_after_age_shape (obs : ObservationRecord) (now : Z) (maxAgeMs : jsnum) :
  nonzero_number maxAgeMs ->
  exists d : Q,
    (0 <= d)%Q
    /\ score_after_age obs now maxAgeMs
       = Fin ((0.5 + (type_weight_spec (ObservationRecord.type obs) + - 0.5) * 0.3)
              * (0.5 + d * 0.5))
    /\ (forall m : Q,
          maxAgeMs = Fin m -> (0 < m)%Q ->
          (m <= inject_Z (now - ObservationRecord.created_at_epoch obs))%Q -> d = 0%Q).
Proof.
  intros Hm. unfold score_after_age, of_Z.
  destruct maxAgeMs as [| | |m]; [contradiction|..].
  - cbn [div sub neg add].
    destruct (Math_max_Fin 0 (1 + - 0)) as (d & -> & Hd & _). cbn [mul add].
    exists d. split; [exact Hd|]. split; [reflexivity|]. intros m [=].
  - cbn [div sub neg add].
    destruct (Math_max_Fin 0 (1 + - 0)) as (d & -> & Hd & _). cbn [mul add].
    exists d. split; [exact Hd|]. split; [reflexivity|]. intros m [=].
  - rewrite div_Fin_nonzero by exact Hm. cbn [sub neg add].
    set (a := inject_Z (now - ObservationRecord.created_at_epoch obs)).
    destruct (Math_max_Fin 0 (1 + - (a / m))) as (d & Hd & Hd0 & Hd1 & Hd2).
    rewrite Hd. cbn [mul add].
    exists d. split; [exact Hd0|]. split; [reflexivity|].
    intros m' [= <-] Hpos Hage.
    assert (Hr : (1 <= a / m)%Q) by (apply Qle_shift_div_l; [exact Hpos|lra]).
    unfold Math_max in Hd.
    destruct (Fin 0 <? Fin (1 + - (a / m))) eqn:E.
    + apply ltb_Fin in E. lra.
    + now injection Hd as <-.
Qed.

Lemma score_after_age_lower (w d : Q) :
  (0.4 <= w <= 1)%Q -> (0 <= d)%Q ->
  (0.235 <= (0.5 + (w + - 0.5) * 0.3) * (0.5 + d * 0.5))%Q.
Proof.
  intros Hw Hd.
  assert (H : (0 <= (0.5 + (w + - 0.5) * 0.3 - 0.47) * (0.5 + d * 0.5))%Q)
    by (apply Qmult_le_0_compat; lra).
  assert (H' : (0 <= 0.47 * (d * 0.5))%Q) by (apply Qmult_le_0_compat; lra).
  lra.
Qed.

End ScoreBounds.

Section ScoreProperties.

Import JSNum.
Local Open Scope js_scope.

Lemma ageDecay_Fin (age : Z) (maxAgeMs : jsnum) :
  nonzero_number maxAgeMs ->
  exists d : Q, (0 <= d)%Q /\ Math_max (Fin 0) (Fin 1 - of_Z age / maxAgeMs) = Fin d.
Proof.
  intros Hm. unfold of_Z. destruct maxAgeMs as [| | |m]; [contradiction|..].
  - cbn [div sub neg add]. destruct (Math_max_Fin 0 (1 + - 0)) as (d & -> & Hd & _).
    now exists d.
  - cbn [div sub neg add]. destruct (Math_max_Fin 0 (1 + - 0)) as (d & -> & Hd & _).
    now exists d.
  - rewrite div_Fin_nonzero by exact Hm. cbn [sub neg add].
    destruct (Math_max_Fin 0 (1 + - (inject_Z age / m))) as (d & -> & Hd & _).
    now exists d.
Qed.





(** Once an observation is at least [maxAge] old its score no longer depends
    on its age: two copies of the same content, both past [maxAge], get the
    same outcome. *)
Theorem score_constant_beyond_maxAge :
  forall (obs1 obs2 : ObservationRecord) (now1 now2 : Z) (m : Q),
    ObservationRecord.type obs1 = ObservationRecord.type obs2 ->
    ObservationRecord.concepts obs1 = ObservationRecord.concepts obs2 ->
    ObservationRecord.narrative obs1 = ObservationRecord.narrative obs2 ->
    ObservationRecord.facts obs1 = ObservationRecord.facts obs2 ->
    (0 < m)%Q ->
    (m <= inject_Z (now1 - ObservationRecord.created_at_epoch obs1))%Q ->
    (m <= inject_Z (now2 - ObservationRecord.created_at_epoch obs2))%Q ->
    calculateImportanceScore obs1 now1 (Fin m) = calculateImportanceScore obs2 now2 (Fin m).
Proof.
  intros obs1 obs2 now1 now2 m Ht Hc Hn Hf Hm H1 H2.
  rewrite !calculateImportanceScore_steps.
  assert (Hnz : nonzero_number (Fin m)) by (cbn; lra).
  destruct (score_after_age_shape obs1 now1 (Fin m) Hnz) as (d1 & _ & -> & Hd1).
  destruct (score_after_age_shape obs2 now2 (Fin m) Hnz) as (d2 & _ & -> & Hd2).
  rewrite (Hd1 m eq_refl Hm H1), (Hd2 m eq_refl Hm H2).
  unfold factsCount, tag_step, content_bonus_and_clamp, narrativeLength.
  now rewrite Ht, Hc, Hn, Hf.
Qed.

Lemma score_constant_beyond_maxAge_witness :
  calculateImportanceScore obs_old_change (200 * day_ms) (Fin (inject_Z (180 * day_ms)))
  = calculateImportanceScore obs_old_change (900 * day_ms) (Fin (inject_Z (180 * day_ms))).
Proof.
  apply (score_constant_beyond_maxAge obs_old_change obs_old_change
           (200 * day_ms) (900 * day_ms) (inject_Z (180 * day_ms)));
    try reflexivity; vm_compute; discriminate.
Defined.



End ScoreProperties.

Section ScoreMonotonicity.

Import JSNum.
Local Open Scope js_scope.

Lemma clamp_leb (x y : Q) :
  (x <= y)%Q ->
  (Math_max (Fin 0) (Math_min (Fin 1) (Fin x))
   <=? Math_max (Fin 0) (Math_min (Fin 1) (Fin y))) = true.
Proof.
  intros H. destruct (clamp_mono x y H) as (a & b & -> & -> & Hab). now apply leb_Fin.
Qed.





(** The token estimate never undercounts and overshoots by less than one
    token: four times the estimate is at least the number of counted
    characters and less than that number plus four; it is 0 exactly when
    every text field is null or empty. *)
Theorem estimateTokens_bounds :
  forall obs : ObservationRecord,
    exists tokens : Z,
      estimateTokens obs = of_Z tokens
      /\ (Z.of_nat (counted_characters obs) <= 4 * tokens
          < Z.of_nat (counted_characters obs) + 4)%Z
      /\ (tokens = 0%Z <-> no_text obs).
Proof.
  intros obs. exists ((Z.of_nat (counted_characters obs) + 3) / 4)%Z.
  split; [apply estimateTokens_value|].
  set (n := Z.of_nat (counted_characters obs)).
  pose proof (Z.div_mod (n + 3) 4 ltac:(lia)) as H1.
  pose proof (Z.mod_pos_bound (n + 3) 4 ltac:(lia)) as H2.
  split; [lia|].
  assert (Hzero : ((n + 3) / 4 = 0 <-> n = 0)%Z) by (unfold n in *; lia).
  rewrite Hzero. unfold n, no_text, counted_characters. cbn [map list_sum foldr].
  destruct (truthy (ObservationRecord.title obs)),
           (truthy (ObservationRecord.subtitle obs)),
           (truthy (ObservationRecord.narrative obs)),
           (truthy (ObservationRecord.facts obs)),
           (truthy (ObservationRecord.concepts obs));
    split; intros H; try lia; try (repeat split; reflexivity);
    try (destruct H as (? & ? & ? & ? & ?); discriminate).
Qed.

End ScoreMonotonicity.

(** * Further properties of the selection *)

Section SelectionProperties.

Import JSNum.
Local Open Scope js_scope.

Lemma filter_length_le_impl {A : Type} (f g : A -> bool) (l : list A) :
  (forall x, f x = true -> g x = true) ->
  (length (List.filter f l) <= length (List.filter g l))%nat.
Proof.
  intros Hfg. induction l as [|x l IH]; [reflexivity|].
  cbn. destruct (f x) eqn:Ef.
  - rewrite (Hfg x Ef). cbn. lia.
  - destruct (g x); cbn; lia.
Qed.

Lemma candidate_pool_length (sessionStore : SessionStore) (now : Z) (options : ShrinkOptions) :
  length (candidate_pool sessionStore now options)
  = length (List.filter
              (fun obs => eligible now options obs
                          && below_minScore now (maxAgeMs_of options) (minScore_of options) obs)
              (db sessionStore)).
Proof.
  unfold candidate_pool. rewrite length_map, <- filter_filter_andb.
  apply Permutation_length, filter_Permutation, select_observations_Permutation.
Qed.

Lemma candidate_pool_le_total (sessionStore : SessionStore) (now : Z) (options : ShrinkOptions) :
  (length (candidate_pool sessionStore now options)
   <= count_observations sessionStore (scope_of options))%nat.
Proof.
  rewrite candidate_pool_length, count_observations_in_scope.
  apply filter_length_le_impl. intros obs H.
  apply andb_true_iff in H as [H _]. unfold eligible in H.
  now apply andb_true_iff in H as [_ H].
Qed.

(** What [analyze] returns is a prefix of the sorted pool, of the length
    the target count allows. *)
Lemma analyze_prefix (sessionStore : SessionStore) (now : Z) (options : ShrinkOptions)
    (r : ShrinkAnalysis) :
  analyze sessionStore now options = Ok r ->
  let pool := candidate_pool sessionStore now options in
  let sorted :=
    Array_sort (fun a b => ShrinkCandidate.score a - ShrinkCandidate.score b) pool in
  let targetCount := targetCount_of (ShrinkAnalysis.totalObservations r) options in
  exists k : nat,
    ShrinkAnalysis.candidates r = firstn k sorted
    /\ ((targetCount = NaN /\ k = 0%nat)
        \/ (targetCount = PInf /\ k = length pool)
        \/ (exists n : nat, (1 <= n)%nat /\ targetCount = of_nat n /\ k = n)).
Proof.
  intros Hr pool sorted targetCount.
  destruct (analyze_Ok _ _ _ _ Hr) as (_ & Hcands & _).
  fold pool in Hcands. fold sorted in Hcands. fold targetCount in Hcands.
  assert (Hlen : length sorted = length pool)
    by (apply Permutation_length, stable_sort_Permutation).
  unfold targetCount, targetCount_of in *.
  destruct (targetCount_shape
              (of_nat (ShrinkAnalysis.totalObservations r) * targetReduction_of options))
    as [H|[H|(n & Hn & H)]]; rewrite H in Hcands |- *.
  - exists 0%nat. rewrite Array_slice0_NaN in Hcands. split; [exact Hcands|]. now left.
  - exists (length pool). rewrite Array_slice0_PInf in Hcands. split.
    + rewrite Hcands, <- Hlen. symmetry. apply firstn_all.
    + right. now left.
  - exists n. rewrite Array_slice0_of_nat in Hcands. split; [exact Hcands|].
    right. right. now exists n.
Qed.

(** [analyze] never proposes to remove more observations than it counted. *)
Theorem analyze_removes_at_most_total :
  forall (sessionStore : SessionStore) (now : Z) (options : ShrinkOptions)
         (r : ShrinkAnalysis),
    analyze sessionStore now options = Ok r ->
    (ShrinkAnalysis.observationsToRemove r <= ShrinkAnalysis.totalObservations r)%nat
    /\ (length (ShrinkAnalysis.candidates r) <= ShrinkAnalysis.totalObservations r)%nat.
Proof.
  intros store now options r Hr.
  destruct (analyze_Ok _ _ _ _ Hr) as (Htotal & _ & Hremove & _).
  destruct (analyze_prefix _ _ _ _ Hr) as (k & Hk & _).
  pose proof (candidate_pool_le_total store now options) as Hle.
  assert (Hlen : (length (ShrinkAnalysis.candidates r)
                  <= length (candidate_pool store now options))%nat).
  { rewrite Hk, length_firstn.
    assert (Hs : length (Array_sort
                           (fun a b => ShrinkCandidate.score a - ShrinkCandidate.score b)
                           (candidate_pool store now options))
                 = length (candidate_pool store now options))
      by (apply Permutation_length, stable_sort_Permutation).
    lia. }
  rewrite Hremove, Htotal. lia.
Qed.

Lemma analyze_removes_at_most_total_witness :
  exists r,
    analyze sample_store sample_now sample_options = Ok r
    /\ (ShrinkAnalysis.observationsToRemove r <= ShrinkAnalysis.totalObservations r)%nat.
Proof.
  destruct (analyze sample_store sample_now sample_options) as [r|e] eqn:E.
  - exists r. split; [reflexivity|].
    exact (proj1 (analyze_removes_at_most_total sample_store sample_now sample_options r E)).
  - vm_compute in E. discriminate E.
Defined.

Lemma StronglySorted_firstn_skipn {A : Type} (R : A -> A -> Prop) (l : list A) (k : nat) :
  StronglySorted R l ->
  forall x y, In x (firstn k l) -> In y (skipn k l) -> R x y.
Proof.
  intros Hs. revert k. induction Hs as [|a l Hs IH Ha]; intros k x y Hx Hy.
  - rewrite firstn_nil in Hx. destruct Hx.
  - destruct k as [|k]; [destruct Hx|]. cbn in Hx, Hy.
    destruct Hx as [<-|Hx].
    + rewrite List.Forall_forall in Ha. apply Ha.
      rewrite <- (firstn_skipn k l). apply in_or_app. now right.
    + now apply (IH k).
Qed.

(** The cut keeps the least important: the returned candidates and the
    dropped ones make up the pool, and no returned candidate scores higher
    than a dropped one. *)
Theorem analyze_keeps_least_important :
  forall (sessionStore : SessionStore) (now : Z) (options : ShrinkOptions)
         (r : ShrinkAnalysis),
    analyze sessionStore now options = Ok r ->
    exists dropped : list ShrinkCandidate,
      Permutation (ShrinkAnalysis.candidates r ++ dropped)
        (candidate_pool sessionStore now options)
      /\ forall c d, In c (ShrinkAnalysis.candidates r) -> In d dropped -> score_le c d.
Proof.
  intros store now options r Hr.
  destruct (analyze_prefix _ _ _ _ Hr) as (k & Hk & _).
  destruct (sorted_pool _ (candidate_pool_unit store now options)) as (Hperm & Hsorted & _).
  set (sorted := Array_sort _ _) in *.
  exists (skipn k sorted). rewrite Hk. split.
  - rewrite firstn_skipn. exact Hperm.
  - intros c d. now apply StronglySorted_firstn_skipn.
Qed.

Lemma analyze_keeps_least_important_witness :
  exists r dropped,
    analyze sample_store sample_now sample_options = Ok r
    /\ Permutation (ShrinkAnalysis.candidates r ++ dropped)
         (candidate_pool sample_store sample_now sample_options)
    /\ forall c d, In c (ShrinkAnalysis.candidates r) -> In d dropped -> score_le c d.
Proof.
  destruct (analyze sample_store sample_now sample_options) as [r|e] eqn:E.
  - destruct (analyze_keeps_least_important sample_store sample_now sample_options r E)
      as (dropped & H1 & H2).
    exists r, dropped. split; [reflexivity|]. split; [exact H1|exact H2].
  - vm_compute in E. discriminate E.
Defined.

End SelectionProperties.

Section QuotaProperties.

Import JSNum.
Local Open Scope js_scope.

Lemma of_nat_mul_not_NaN (total : nat) (a : jsnum) :
  (1 <= total)%nat -> a <> NaN -> of_nat total * a <> NaN.
Proof.
  intros Ht Ha. unfold of_nat, of_Z.
  assert (H : (inject_Z (Z.of_nat total) ?= 0)%Q = Gt).
  { apply Qgt_alt. change 0%Q with (inject_Z 0). rewrite <- Zlt_Qlt. lia. }
  destruct a as [| | |q]; [contradiction|..]; cbn [mul]; unfold inf_times;
    rewrite ?H; discriminate.
Qed.

Lemma targetCount_NaN (y : jsnum) :
  Math_max (Fin 1) (Math_floor y) = NaN -> y = NaN.
Proof.
  destruct y as [| | |q]; try reflexivity; try discriminate.
  cbn [Math_floor]. unfold of_Z, Math_max.
  destruct (Fin 1 <? Fin (inject_Z (Qfloor q))); discriminate.
Qed.

(** Whenever some eligible observation scores below the threshold and
    [targetReduction] is a number, at least one candidate is proposed,
    however small (zero, negative) the reduction asked for. *)
Theorem analyze_proposes_at_least_one :
  forall (sessionStore : SessionStore) (now : Z) (options : ShrinkOptions)
         (r : ShrinkAnalysis),
    analyze sessionStore now options = Ok r ->
    candidate_pool sessionStore now options <> [] ->
    targetReduction_of options <> NaN ->
    (1 <= length (ShrinkAnalysis.candidates r))%nat.
Proof.
  intros store now options r Hr Hpool Htr.
  destruct (analyze_Ok _ _ _ _ Hr) as (Htotal & _).
  destruct (analyze_prefix _ _ _ _ Hr) as (k & Hk & Hquota).
  pose proof (candidate_pool_le_total store now options) as Hle.
  assert (Hlen : (1 <= length (candidate_pool store now options))%nat).
  { destruct (candidate_pool store now options); [contradiction|cbn; lia]. }
  assert (Hs : length (Array_sort
                         (fun a b => ShrinkCandidate.score a - ShrinkCandidate.score b)
                         (candidate_pool store now options))
               = length (candidate_pool store now options))
    by (apply Permutation_length, stable_sort_Permutation).
  rewrite Hk, length_firstn.
  destruct Hquota as [[H _]|[[_ ->]|(n & Hn & _ & ->)]]; [|lia..].
  exfalso. apply targetCount_NaN in H.
  revert H. apply of_nat_mul_not_NaN; [|exact Htr]. rewrite Htotal. lia.
Qed.

Lemma analyze_proposes_at_least_one_witness :
  exists r,
    analyze sample_store sample_now
      (ShrinkOptions.mk None (Some (Fin 0)) None None None) = Ok r
    /\ (1 <= length (ShrinkAnalysis.candidates r))%nat.
Proof.
  destruct (analyze sample_store sample_now
              (ShrinkOptions.mk None (Some (Fin 0)) None None None)) as [r|e] eqn:E.
  - exists r. split; [reflexivity|].
    apply (analyze_proposes_at_least_one sample_store sample_now
             (ShrinkOptions.mk None (Some (Fin 0)) None None None) r E).
    + vm_compute. discriminate.
    + discriminate.
  - vm_compute in E. discriminate E.
Defined.

Lemma targetCount_at_least (total : nat) (tr : jsnum) :
  (1 <= total)%nat -> (Fin 1 <=? tr) = true ->
  Math_max (Fin 1) (Math_floor (of_nat total * tr)) = PInf
  \/ exists n : nat,
       (total <= n)%nat /\ Math_max (Fin 1) (Math_floor (of_nat total * tr)) = of_nat n.
Proof.
  intros Ht Htr. change (of_nat total) with (Fin (inject_Z (Z.of_nat total))).
  assert (Hpos : (0 < inject_Z (Z.of_nat total))%Q).
  { change 0%Q with (inject_Z 0). rewrite <- Zlt_Qlt. lia. }
  destruct tr as [| | |q]; try discriminate.
  - left. cbn [mul]. unfold inf_times. apply Qgt_alt in Hpos. now rewrite Hpos.
  - right. apply leb_Fin in Htr. cbn [mul Math_floor]. unfold of_Z, Math_max.
    assert (Hz : (Z.of_nat total <= Qfloor (inject_Z (Z.of_nat total) * q))%Z).
    { rewrite <- (Qfloor_Z (Z.of_nat total)) at 1. apply Qfloor_resp_le.
      rewrite <- (Qmult_1_r (inject_Z (Z.of_nat total))) at 1.
      apply Qmult_le_l; [exact Hpos|exact Htr]. }
    set (z := Qfloor (inject_Z (Z.of_nat total) * q)) in *.
    destruct (Fin 1 <? Fin (inject_Z z)) eqn:E.
    + exists (Z.to_nat z). split; [lia|].
      unfold of_nat, of_Z. rewrite Z2Nat.id by lia. reflexivity.
    + exists 1%nat. split; [|reflexivity].
      destruct (Z.le_gt_cases z 1) as [H|H]; [lia|].
      assert (H' : (Fin 1 <? Fin (inject_Z z)) = true).
      { apply ltb_Fin. change 1%Q with (inject_Z 1). rewrite <- Zlt_Qlt. lia. }
      congruence.
Qed.

(** With a [targetReduction] of one or more, nothing is cut: every eligible
    observation scoring below the threshold is returned. *)
Theorem analyze_full_reduction_returns_pool :
  forall (sessionStore : SessionStore) (now : Z) (options : ShrinkOptions)
         (r : ShrinkAnalysis),
    analyze sessionStore now options = Ok r ->
    (Fin 1 <=? targetReduction_of options) = true ->
    Permutation (ShrinkAnalysis.candidates r) (candidate_pool sessionStore now options).
Proof.
  intros store now options r Hr Htr.
  destruct (analyze_Ok _ _ _ _ Hr) as (Htotal & Hcands & _).
  pose proof (candidate_pool_le_total store now options) as Hle.
  rewrite <- Htotal in Hle.
  set (pool := candidate_pool store now options) in *.
  set (sorted := Array_sort _ pool) in *.
  assert (Hperm : Permutation sorted pool) by apply stable_sort_Permutation.
  assert (Hlen : length sorted = length pool) by apply Permutation_length, Hperm.
  destruct (Nat.eq_dec (ShrinkAnalysis.totalObservations r) 0) as [H0|H0].
  - assert (Hnil : sorted = []) by (destruct sorted; [reflexivity|cbn in Hlen; lia]).
    rewrite Hcands, Hnil. unfold Array_slice0. rewrite firstn_nil.
    rewrite Hnil in Hperm. exact Hperm.
  - unfold targetCount_of in Hcands.
    destruct (targetCount_at_least (ShrinkAnalysis.totalObservations r)
                (targetReduction_of options) ltac:(lia) Htr) as [H|(n & Hn & H)];
      rewrite H in Hcands; rewrite Hcands.
    + now rewrite Array_slice0_PInf.
    + rewrite Array_slice0_of_nat, firstn_all2 by lia. exact Hperm.
Qed.

Lemma analyze_full_reduction_returns_pool_witness :
  exists r,
    analyze sample_store sample_now
      (ShrinkOptions.mk None (Some (Fin 1)) None None None) = Ok r
    /\ Permutation (ShrinkAnalysis.candidates r)
         (candidate_pool sample_store sample_now
            (ShrinkOptions.mk None (Some (Fin 1)) None None None)).
Proof.
  destruct (analyze sample_store sample_now
              (ShrinkOptions.mk None (Some (Fin 1)) None None None)) as [r|e] eqn:E.
  - exists r. split; [reflexivity|].
    apply (analyze_full_reduction_returns_pool sample_store sample_now
             (ShrinkOptions.mk None (Some (Fin 1)) None None None) r E).
    reflexivity.
  - vm_compute in E. discriminate E.
Defined.

Lemma filter_none {A : Type} (f : A -> bool) (l : list A) :
  (forall x, In x l -> f x = false) -> List.filter f l = [].
Proof.
  induction l as [|x l IH]; intros H; [reflexivity|].
  cbn. rewrite (H x (or_introl eq_refl)). apply IH. intros y Hy. apply H. now right.
Qed.

(** When no stored observation is eligible (an empty store, or only rows
    that are too young or of another project), [analyze] returns the empty
    proposal with no tokens saved; it does not read the content of the
    rows, so unparseable fields in them do no harm. *)
Theorem analyze_nothing_eligible :
  forall (sessionStore : SessionStore) (now : Z) (options : ShrinkOptions),
    (forall obs, In obs (db sessionStore) -> eligible now options obs = false) ->
    analyze sessionStore now options
    = Ok (ShrinkAnalysis.mk [] (Fin 0) 0
            (length (List.filter (in_scope options) (db sessionStore)))).
Proof.
  intros store now options Hnone. unfold analyze.
  fold (scope_of options). fold (minAgeMs_of options).
  unfold select_observations.
  assert (Hf : List.filter (where_clause (of_Z now - minAgeMs_of options) (scope_of options))
                 (db store) = []) by (apply filter_none, Hnone).
  rewrite Hf. cbn [stable_sort fold_right for_of mbind outcome_bind Array_sort].
  unfold Array_slice0. rewrite firstn_nil. cbn [fold_left length].
  now rewrite count_observations_in_scope.
Qed.

Lemma analyze_nothing_eligible_witness :
  analyze {| db := [obs_bad_facts] |} (50 * day_ms) ShrinkOptions.empty
  = Ok (ShrinkAnalysis.mk [] (Fin 0) 0 1).
Proof.
  apply (analyze_nothing_eligible {| db := [obs_bad_facts] |} (50 * day_ms) ShrinkOptions.empty).
  intros obs [<-|[]]. reflexivity.
Defined.



End QuotaProperties.

(** * Further properties of the deletion *)

Section DeletionProperties.

Lemma executeShrink_store (store : SessionStore) (ids : list Z) :
  snd (executeShrink store ids) = {| db := List.filter (unlisted ids) (db store) |}.
Proof.
  revert store. induction ids as [|id ids IH]; intros [rows].
  - cbn. f_equal. symmetry. apply filter_keeps_all.
    induction rows as [|obs rows IHr]; [reflexivity|exact IHr].
  - rewrite executeShrink_cons. unfold deleteObservationById. cbn [db].
    specialize (IH {| db := List.filter
                              (fun obs => negb (ObservationRecord.id obs =? id)%Z) rows |}).
    destruct (executeShrink _ ids) as [counts store'']. cbn [snd db] in *.
    rewrite IH. f_equal. rewrite filter_filter_andb.
    apply filter_ext. intros obs. unfold unlisted. cbn [existsb].
    now rewrite negb_orb.
Qed.

(** Deleting touches the listed rows only: the rows whose identifier is not
    in the list are all kept, in their order, and no listed row is. *)
Theorem executeShrink_keeps_unlisted_rows :
  forall (sessionStore : SessionStore) (observationIds : list Z),
    db (snd (executeShrink sessionStore observationIds))
    = List.filter (unlisted observationIds) (db sessionStore)
    /\ forall obs, In obs (db sessionStore) ->
         (In obs (db (snd (executeShrink sessionStore observationIds)))
          <-> ~ In (ObservationRecord.id obs) observationIds).
Proof.
  intros store ids. rewrite executeShrink_store. cbn [db]. split; [reflexivity|].
  intros obs Hin. rewrite filter_In. unfold unlisted. split.
  - intros [_ H] Hid. apply negb_true_iff in H.
    assert (H' : existsb (Z.eqb (ObservationRecord.id obs)) ids = true).
    { apply existsb_exists. eexists. split; [exact Hid|apply Z.eqb_refl]. }
    congruence.
  - intros Hid. split; [exact Hin|]. apply negb_true_iff.
    destruct (existsb _ ids) eqn:E; [|reflexivity].
    apply existsb_exists in E as (i & Hi & He). apply Z.eqb_eq in He. now subst.
Qed.

Lemma NoDup_map_filter {A B : Type} (f : A -> B) (g : A -> bool) (l : list A) :
  List.NoDup (map f l) -> List.NoDup (map f (List.filter g l)).
Proof.
  induction l as [|x l IH]; [easy|]. cbn. intros H. apply List.NoDup_cons_iff in H as [Hx Hl].
  destruct (g x); [|now apply IH]. cbn. apply List.NoDup_cons_iff. split; [|now apply IH].
  intros Hin. apply Hx. apply in_map_iff in Hin as (y & <- & Hy).
  apply in_map, (proj1 (filter_In _ _ _) Hy).
Qed.

Lemma deleteObservationById_length (store : SessionStore) (id : Z) :
  unique_ids store ->
  (length (db (snd (deleteObservationById store id)))
   + (if fst (deleteObservationById store id) then 1 else 0)
   = length (db store))%nat.
Proof.
  unfold unique_ids, deleteObservationById. cbn [fst snd db].
  induction (db store) as [|obs rows IH]; [reflexivity|].
  cbn [map]. intros H. apply List.NoDup_cons_iff in H as [Hobs Hrows].
  cbn [existsb List.filter]. destruct (ObservationRecord.id obs =? id)%Z eqn:E; cbn.
  - apply Z.eqb_eq in E.
    assert (Hnone : has_id {| db := rows |} id = false).
    { apply not_true_iff_false. intros Ex. apply existsb_exists in Ex as (o & Ho & He).
      apply Z.eqb_eq in He. apply Hobs. rewrite E, <- He. now apply in_map. }
    pose proof (deleteObservationById_missing _ _ Hnone) as Hm.
    unfold deleteObservationById in Hm. cbn [db] in Hm. injection Hm as Hex Hf.
    rewrite ?Hex, Hf. lia.
  - specialize (IH Hrows). lia.
Qed.

(** With unique identifiers every successful deletion removes exactly one
    row: the rows left and the [deleted] count add up to the rows there
    were. *)
Theorem executeShrink_accounts_for_rows :
  forall (sessionStore : SessionStore) (observationIds : list Z),
    unique_ids sessionStore ->
    (length (db (snd (executeShrink sessionStore observationIds)))
     + deleted (fst (executeShrink sessionStore observationIds))
     = length (db sessionStore))%nat
    /\ unique_ids (snd (executeShrink sessionStore observationIds)).
Proof.
  intros store ids. revert store. induction ids as [|id ids IH]; intros store Hu.
  - cbn. split; [lia|exact Hu].
  - rewrite executeShrink_cons.
    pose proof (deleteObservationById_length store id Hu) as Hlen.
    assert (Hu' : unique_ids (snd (deleteObservationById store id))).
    { unfold unique_ids, deleteObservationById. cbn [snd db]. now apply NoDup_map_filter. }
    destruct (deleteObservationById store id) as [success store'].
    cbn [fst snd] in *. destruct (IH store' Hu') as [IH1 IH2].
    destruct (executeShrink store' ids) as [counts store''].
    cbn [fst snd deleted] in *. split; [destruct success; lia|exact IH2].
Qed.

Lemma executeShrink_accounts_for_rows_witness :
  (length (db (snd (executeShrink sample_store [7; 9; 7; 2]%Z)))
   + deleted (fst (executeShrink sample_store [7; 9; 7; 2]%Z))
   = length (db sample_store))%nat.
Proof.
  apply (executeShrink_accounts_for_rows sample_store [7; 9; 7; 2]%Z).
  unfold unique_ids. cbn. repeat constructor; cbn; intuition discriminate.
Defined.

Lemma executeShrink_swap (store : SessionStore) (x y : Z) (ids : list Z) :
  executeShrink store (x :: y :: ids) = executeShrink store (y :: x :: ids).
Proof.
  rewrite !executeShrink_cons.
  pose proof (deleteObservationById_removes store x y) as Hxy.
  pose proof (deleteObservationById_removes store y x) as Hyx.
  unfold deleteObservationById in *. cbn [snd] in Hxy, Hyx.
  fold (has_id store x). fold (has_id store y).
  set (sx := {| db := List.filter (fun obs => negb (ObservationRecord.id obs =? x)%Z) (db store) |}) in *.
  set (sy := {| db := List.filter (fun obs => negb (ObservationRecord.id obs =? y)%Z) (db store) |}) in *.
  rewrite !executeShrink_cons. unfold deleteObservationById.
  fold (has_id sx y). fold (has_id sy x). rewrite Hxy, Hyx.
  assert (Hs : {| db := List.filter (fun obs => negb (ObservationRecord.id obs =? y)%Z) (db sx) |}
               = {| db := List.filter (fun obs => negb (ObservationRecord.id obs =? x)%Z) (db sy) |}).
  { unfold sx, sy. cbn [db]. f_equal. rewrite !filter_filter_andb.
    apply filter_ext. intros obs. apply andb_comm. }
  rewrite Hs. destruct (executeShrink _ ids) as [counts s'].
  rewrite (Z.eqb_sym x y).
  destruct (has_id store x) eqn:Hx, (has_id store y) eqn:Hy, (y =? x)%Z eqn:E; cbn;
    try reflexivity; apply Z.eqb_eq in E; subst; congruence.
Qed.

(** The order of the identifiers does not matter: any rearrangement of the
    list gives the same counts and the same store. *)
Theorem executeShrink_order_irrelevant :
  forall (sessionStore : SessionStore) (ids ids' : list Z),
    Permutation ids ids' ->
    executeShrink sessionStore ids = executeShrink sessionStore ids'.
Proof.
  intros store ids ids' Hperm. revert store.
  induction Hperm as [|x l l' _ IH|x y l|l l' l'' _ IH1 _ IH2]; intros store.
  - reflexivity.
  - rewrite !executeShrink_cons. destruct (deleteObservationById store x) as [ok s'].
    now rewrite IH.
  - apply executeShrink_swap.
  - now rewrite IH1.
Qed.

Lemma executeShrink_order_irrelevant_witness :
  executeShrink sample_store [7; 9; 2]%Z = executeShrink sample_store [2; 7; 9]%Z.
Proof.
  apply (executeShrink_order_irrelevant sample_store [7; 9; 2]%Z [2; 7; 9]%Z).
  apply Permutation_sym, (Permutation_cons_app [7; 9]%Z [] 2%Z). now rewrite app_nil_r.
Defined.

End DeletionProperties.

(** * Analysis followed by deletion *)

Section TwoPhase.

Import JSNum.
Local Open Scope js_scope.

Lemma In_has_id (store : SessionStore) (obs : ObservationRecord) :
  In obs (db store) -> has_id store (ObservationRecord.id obs) = true.
Proof.
  intros Hin. apply existsb_exists. exists obs. split; [exact Hin|apply Z.eqb_refl].
Qed.

Lemma executeShrink_all_present (store : SessionStore) (ids : list Z) :
  List.NoDup ids ->
  (forall id, In id ids -> has_id store id = true) ->
  fst (executeShrink store ids) = {| deleted := length ids; failed := 0 |}.
Proof.
  intros Hnd. revert store. induction Hnd as [|id ids Hid _ IH]; intros store Hall.
  - reflexivity.
  - rewrite executeShrink_cons.
    pose proof (deleteObservationById_removes store id) as Hrem.
    assert (Hok : fst (deleteObservationById store id) = true)
      by (apply Hall; now left).
    destruct (deleteObservationById store id) as [ok store']. cbn [fst snd] in *. subst ok.
    specialize (IH store').
    destruct (executeShrink store' ids) as [counts store'']. cbn [fst] in *.
    rewrite IH; [reflexivity|].
    intros j Hj. rewrite Hrem, (Hall j (or_intror Hj)). cbn.
    apply negb_true_iff, Z.eqb_neq. intros ->. contradiction.
Qed.

Lemma NoDup_firstn {A : Type} (k : nat) (l : list A) :
  List.NoDup l -> List.NoDup (firstn k l).
Proof.
  intros H. revert k. induction H as [|x l Hx _ IH]; intros [|k]; cbn; try constructor.
  - intros Hin. apply Hx. eapply In_firstn, Hin.
  - apply IH.
Qed.

Lemma candidate_ids_unique (sessionStore : SessionStore) (now : Z) (options : ShrinkOptions)
    (r : ShrinkAnalysis) :
  unique_ids sessionStore ->
  analyze sessionStore now options = Ok r ->
  List.NoDup (map ShrinkCandidate.id (ShrinkAnalysis.candidates r)).
Proof.
  intros Hu Hr. destruct (analyze_prefix _ _ _ _ Hr) as (k & -> & _).
  rewrite <- firstn_map. apply NoDup_firstn.
  eapply Permutation_NoDup;
    [apply Permutation_map, Permutation_sym, stable_sort_Permutation|].
  unfold candidate_pool. rewrite map_map.
  change (fun x => ShrinkCandidate.id (candidate_of now (maxAgeMs_of options) x))
    with ObservationRecord.id.
  apply NoDup_map_filter.
  eapply Permutation_NoDup;
    [apply Permutation_map, Permutation_sym, select_observations_Permutation|].
  now apply NoDup_map_filter.
Qed.

(** Executing a proposal right after the analysis, on a store with unique
    identifiers, deletes every proposed observation: [deleted] is
    [observationsToRemove] and nothing fails. *)
Theorem execute_proposal_deletes_all :
  forall (sessionStore : SessionStore) (now : Z) (options : ShrinkOptions)
         (r : ShrinkAnalysis),
    unique_ids sessionStore ->
    analyze sessionStore now options = Ok r ->
    fst (executeShrink sessionStore
           (map ShrinkCandidate.id (ShrinkAnalysis.candidates r)))
    = {| deleted := ShrinkAnalysis.observationsToRemove r; failed := 0 |}.
Proof.
  intros store now options r Hu Hr.
  destruct (analyze_Ok _ _ _ _ Hr) as (_ & _ & -> & _).
  rewrite <- (length_map ShrinkCandidate.id).
  apply executeShrink_all_present; [now apply (candidate_ids_unique store now options)|].
  intros id Hid. apply in_map_iff in Hid as (c & <- & Hc).
  apply (candidates_from_pool _ _ _ _ Hr) in Hc.
  destruct (candidate_pool_origin _ _ _ _ Hc) as (obs & Hin & _ & -> & _).
  unfold candidate_of. fields. now apply In_has_id.
Qed.

Lemma execute_proposal_deletes_all_witness :
  exists r,
    analyze sample_store sample_now sample_options = Ok r
    /\ fst (executeShrink sample_store (map ShrinkCandidate.id (ShrinkAnalysis.candidates r)))
       = {| deleted := ShrinkAnalysis.observationsToRemove r; failed := 0 |}.
Proof.
  destruct (analyze sample_store sample_now sample_options) as [r|e] eqn:E.
  - exists r. split; [reflexivity|].
    apply (execute_proposal_deletes_all sample_store sample_now sample_options r); [|exact E].
    unfold unique_ids. cbn. repeat constructor; cbn; intuition discriminate.
  - vm_compute in E. discriminate E.
Defined.

(** An observation that was listed for deletion is never proposed again: a
    later analysis of the store left by [executeShrink] has no candidate
    with a listed identifier. *)
Theorem deleted_ids_never_proposed_again :
  forall (sessionStore : SessionStore) (observationIds : list Z)
         (now : Z) (options : ShrinkOptions) (r : ShrinkAnalysis),
    analyze (snd (executeShrink sessionStore observationIds)) now options = Ok r ->
    forall c, In c (ShrinkAnalysis.candidates r) ->
              ~ In (ShrinkCandidate.id c) observationIds.
Proof.
  intros store ids now options r Hr c Hc Hid.
  apply (candidates_from_pool _ _ _ _ Hr) in Hc.
  destruct (candidate_pool_origin _ _ _ _ Hc) as (obs & Hin & _ & -> & _).
  unfold candidate_of in Hid. fields.
  apply In_has_id in Hin. rewrite executeShrink_has_id in Hin.
  apply andb_true_iff in Hin as [_ Hin]. apply negb_true_iff in Hin.
  assert (H : existsb (Z.eqb (ObservationRecord.id obs)) ids = true).
  { apply existsb_exists. eexists. split; [exact Hid|apply Z.eqb_refl]. }
  congruence.
Qed.

Lemma deleted_ids_never_proposed_again_witness :
  exists r,
    analyze (snd (executeShrink sample_store [4%Z])) sample_now sample_options = Ok r
    /\ forall c, In c (ShrinkAnalysis.candidates r) -> ~ In (ShrinkCandidate.id c) [4%Z].
Proof.
  destruct (analyze (snd (executeShrink sample_store [4%Z])) sample_now sample_options)
    as [r|e] eqn:E.
  - exists r. split; [reflexivity|].
    exact (deleted_ids_never_proposed_again sample_store [4%Z] sample_now sample_options r E).
  - vm_compute in E. discriminate E.
Defined.

End TwoPhase.

(** * The shrink dialog *)

Section ShrinkModalProperties.

Import JSNum.
Local Open Scope js_scope.

(** From two months on the label counts at least two months, so the plural
    is right, and a stretch of 30 to 59 days reads "1 month ago". *)
Theorem formatAge_months :
  forall now_ms epochSeconds : Z,
    (30 * 86400 <= now_ms / 1000 - epochSeconds)%Z ->
    let days := ((now_ms / 1000 - epochSeconds) / 86400)%Z in
    ((days < 60)%Z /\ formatAge now_ms epochSeconds = js "1 month ago")
    \/ ((2 <= days / 30)%Z
        /\ formatAge now_ms epochSeconds = Number_toString (days / 30) ++ js " months ago").
Proof.
  intros now_ms epoch Hage days.
  assert (Hd : (30 <= days)%Z).
  { unfold days. apply Z.div_le_lower_bound; lia. }
  unfold formatAge. fold days.
  destruct (Z.eqb_spec days 0); [lia|]. destruct (Z.eqb_spec days 1); [lia|].
  destruct (Z.ltb_spec days 30); [lia|].
  destruct (Z.ltb_spec days 60) as [Hlt|Hge].
  - left. now split.
  - right. split; [|reflexivity]. apply Z.div_le_lower_bound; lia.
Qed.

Lemma formatAge_months_witness :
  ((((100 * day_ms / 1000 - 10 * 86400) / 86400) < 60)%Z
   /\ formatAge (100 * day_ms) (10 * 86400) = js "1 month ago")
  \/ ((2 <= ((100 * day_ms / 1000 - 10 * 86400) / 86400) / 30)%Z
      /\ formatAge (100 * day_ms) (10 * 86400)
         = Number_toString (((100 * day_ms / 1000 - 10 * 86400) / 86400) / 30)
           ++ js " months ago").
Proof.
  apply (formatAge_months (100 * day_ms) (10 * 86400)). vm_compute. discriminate.
Defined.

(** [formatAge] reads its argument in seconds: for an argument later than
    the current time in seconds, as a timestamp in milliseconds is, the
    label is a negative number of days. *)
Theorem formatAge_of_later_timestamp :
  forall now_ms epochSeconds : Z,
    (now_ms / 1000 < epochSeconds)%Z ->
    exists days : Z,
      (days < 0)%Z
      /\ days = ((now_ms / 1000 - epochSeconds) / 86400)%Z
      /\ formatAge now_ms epochSeconds = Number_toString days ++ js " days ago".
Proof.
  intros now_ms epoch Hlater.
  exists ((now_ms / 1000 - epoch) / 86400)%Z.
  assert (Hd : ((now_ms / 1000 - epoch) / 86400 < 0)%Z).
  { apply Z.div_lt_upper_bound; lia. }
  split; [exact Hd|]. split; [reflexivity|]. unfold formatAge.
  destruct (Z.eqb_spec ((now_ms / 1000 - epoch) / 86400) 0); [lia|].
  destruct (Z.eqb_spec ((now_ms / 1000 - epoch) / 86400) 1); [lia|].
  destruct (Z.ltb_spec ((now_ms / 1000 - epoch) / 86400) 30); [reflexivity|lia].
Qed.

Lemma formatAge_of_later_timestamp_witness :
  exists days : Z,
    (days < 0)%Z
    /\ days = ((sample_now / 1000 - 100 * day_ms) / 86400)%Z
    /\ formatAge sample_now (100 * day_ms) = Number_toString days ++ js " days ago".
Proof.
  apply (formatAge_of_later_timestamp sample_now (100 * day_ms)). vm_compute. reflexivity.
Defined.

(** A click on a checkbox flips that candidate and no other, and a second
    click restores the selection. *)
Theorem toggleCandidate_flips_one :
  forall (id : Z) (selectedIds : gset Z),
    (id ∈ toggleCandidate id selectedIds <-> id ∉ selectedIds)
    /\ (forall other, other <> id ->
          (other ∈ toggleCandidate id selectedIds <-> other ∈ selectedIds))
    /\ toggleCandidate id (toggleCandidate id selectedIds) = selectedIds.
Proof.
  intros id s. unfold toggleCandidate.
  destruct (decide (id ∈ s)) as [Hin|Hout].
  - split; [|split].
    + rewrite elem_of_difference, elem_of_singleton. tauto.
    + intros other Hne. rewrite elem_of_difference, elem_of_singleton. tauto.
    + rewrite decide_False by (rewrite elem_of_difference, elem_of_singleton; tauto).
      apply set_eq. intros x.
      rewrite elem_of_union, elem_of_difference, elem_of_singleton.
      destruct (decide (x = id)) as [->|]; tauto.
  - split; [|split].
    + rewrite elem_of_union, elem_of_singleton. tauto.
    + intros other Hne. rewrite elem_of_union, elem_of_singleton. tauto.
    + rewrite decide_True by (rewrite elem_of_union, elem_of_singleton; tauto).
      apply set_eq. intros x.
      rewrite elem_of_difference, elem_of_union, elem_of_singleton.
      destruct (decide (x = id)) as [->|]; tauto.
Qed.

Lemma filter_selected_all (l : list ShrinkCandidate) :
  List.filter
    (fun c => bool_decide (ShrinkCandidate.id c ∈ (list_to_set (map ShrinkCandidate.id l) : gset Z)))
    l = l.
Proof.
  apply filter_keeps_all. apply not_true_iff_false. intros H.
  apply existsb_exists in H as (c & Hc & H). apply negb_true_iff in H.
  apply bool_decide_eq_false in H. apply H.
  apply elem_of_list_to_set, list_elem_of_In, in_map, Hc.
Qed.

(** Right after an analysis every candidate is selected, and the token
    figure the dialog shows is the [totalTokensSaved] of the analysis; the
    same holds after "All". *)
Theorem selectedTokens_after_analysis :
  forall (sessionStore : SessionStore) (now : Z) (options : ShrinkOptions)
         (r : ShrinkAnalysis) (prev : gset Z),
    analyze sessionStore now options = Ok r ->
    selectedTokens (Some r) (list_to_set (candidate_ids r))
    = ShrinkAnalysis.totalTokensSaved r
    /\ selectedTokens (Some r) (selectAll (Some r) prev)
       = ShrinkAnalysis.totalTokensSaved r.
Proof.
  intros store now options r prev Hr.
  destruct (analyze_Ok _ _ _ _ Hr) as (_ & _ & _ & ->).
  unfold selectedTokens, selectAll, candidate_ids. now rewrite filter_selected_all.
Qed.

Lemma selectedTokens_after_analysis_witness :
  exists r,
    analyze sample_store sample_now sample_options = Ok r
    /\ selectedTokens (Some r) (list_to_set (candidate_ids r))
       = ShrinkAnalysis.totalTokensSaved r.
Proof.
  destruct (analyze sample_store sample_now sample_options) as [r|e] eqn:E.
  - exists r. split; [reflexivity|].
    exact (proj1 (selectedTokens_after_analysis sample_store sample_now sample_options r ∅ E)).
  - vm_compute in E. discriminate E.
Defined.

Lemma fold_left_tokens_filter (keep : ShrinkCandidate -> bool) (l : list ShrinkCandidate) :
  Forall (fun c => exists t : Q, ShrinkCandidate.tokenCount c = Fin t /\ (0 <= t)%Q) l ->
  forall a b : Q, (a <= b)%Q ->
  exists x y : Q,
    fold_left (fun sum c => sum + ShrinkCandidate.tokenCount c) (List.filter keep l) (Fin a)
    = Fin x
    /\ fold_left (fun sum c => sum + ShrinkCandidate.tokenCount c) l (Fin b) = Fin y
    /\ (x <= y)%Q.
Proof.
  induction 1 as [|c l (t & Ht & Ht0) _ IH]; intros a b Hab.
  - exists a, b. now repeat split.
  - cbn [List.filter fold_left]. rewrite Ht. cbn [add].
    destruct (keep c); [cbn [fold_left]; rewrite Ht; cbn [add]|]; apply IH; lra.
Qed.

(** Whatever is selected, the token figure shown never exceeds the
    [totalTokensSaved] of the analysis. *)
Theorem selectedTokens_at_most_total :
  forall (sessionStore : SessionStore) (now : Z) (options : ShrinkOptions)
         (r : ShrinkAnalysis) (selectedIds : gset Z),
    analyze sessionStore now options = Ok r ->
    (selectedTokens (Some r) selectedIds <=? ShrinkAnalysis.totalTokensSaved r) = true.
Proof.
  intros store now options r selectedIds Hr.
  destruct (analyze_Ok _ _ _ _ Hr) as (_ & _ & _ & ->). unfold selectedTokens.
  destruct (fold_left_tokens_filter
              (fun c => bool_decide (ShrinkCandidate.id c ∈ selectedIds))
              (ShrinkAnalysis.candidates r)) with (a := 0%Q) (b := 0%Q)
    as (x & y & -> & -> & Hxy); [|lra|now apply leb_Fin].
  apply List.Forall_forall. intros c Hc.
  apply (candidates_from_pool _ _ _ _ Hr) in Hc.
  destruct (candidate_pool_origin _ _ _ _ Hc) as (obs & _ & _ & -> & _).
  unfold candidate_of. fields. rewrite estimateTokens_value.
  eexists. split; [reflexivity|].
  change 0%Q with (inject_Z 0). rewrite <- Zle_Qle. apply Z.div_pos; lia.
Qed.

Lemma selectedTokens_at_most_total_witness :
  exists r,
    analyze sample_store sample_now sample_options = Ok r
    /\ (selectedTokens (Some r) {[ 7%Z ]} <=? ShrinkAnalysis.totalTokensSaved r) = true.
Proof.
  destruct (analyze sample_store sample_now sample_options) as [r|e] eqn:E.
  - exists r. split; [reflexivity|].
    exact (selectedTokens_at_most_total sample_store sample_now sample_options r {[ 7%Z ]} E).
  - vm_compute in E. discriminate E.
Defined.



End ShrinkModalProperties.

Section SelectionWorkflow.

Import JSNum.
Local Open Scope js_scope.

Lemma apply_action_within (now_ms : Z) (analysis : ShrinkAnalysis)
    (selectedIds : gset Z) (action : selection_action) :
  offered analysis action ->
  selectedIds ⊆ list_to_set (candidate_ids analysis) ->
  apply_action now_ms analysis selectedIds action ⊆ list_to_set (candidate_ids analysis).
Proof.
  intros Hoff Hsub. destruct action as [id| | |days]; cbn [apply_action offered] in *.
  - unfold toggleCandidate. destruct (decide (id ∈ selectedIds)); intros x Hx.
    + apply elem_of_difference in Hx as [Hx _]. now apply Hsub.
    + apply elem_of_union in Hx as [Hx|Hx]; [now apply Hsub|].
      apply elem_of_singleton in Hx as ->.
      now apply elem_of_list_to_set, list_elem_of_In.
  - reflexivity.
  - intros x Hx. now apply elem_of_empty in Hx.
  - intros x Hx. unfold selectOlderThan in Hx.
    apply elem_of_list_to_set, list_elem_of_In in Hx.
    apply in_map_iff in Hx as (c & <- & Hc). apply filter_In in Hc as [Hc _].
    apply elem_of_list_to_set, list_elem_of_In. unfold candidate_ids. now apply in_map.
Qed.

Lemma selection_after_within
    (now_ms : Z) (analysis : ShrinkAnalysis) (actions : list selection_action) :
  Forall (offered analysis) actions ->
  forall id, id ∈ selection_after now_ms analysis actions ->
             In id (candidate_ids analysis).
Proof.
  intros Hoff.
  assert (H : forall start : gset Z,
            start ⊆ list_to_set (candidate_ids analysis) ->
            fold_left (apply_action now_ms analysis) actions start
              ⊆ list_to_set (candidate_ids analysis)).
  { induction Hoff as [|action actions Ha _ IH]; intros start Hstart; [exact Hstart|].
    cbn [fold_left]. apply IH. now apply apply_action_within. }
  intros id Hid. apply list_elem_of_In, (elem_of_list_to_set (C := gset Z)).
  now apply (H (list_to_set (candidate_ids analysis))).
Qed.

(** Whatever the user does in the dialog, the selection stays within the
    candidates of the analysis shown. *)
Theorem selection_within_candidates :
  forall (now_ms : Z) (analysis : ShrinkAnalysis) (actions : list selection_action),
    Forall (offered analysis) actions ->
    forall id, id ∈ selection_after now_ms analysis actions ->
               In id (candidate_ids analysis).
Proof. exact selection_after_within. Qed.

Lemma selection_within_candidates_witness :
  7%Z ∈ selection_after sample_now
          (ShrinkAnalysis.mk [candidate_of sample_now (days_to_ms (Fin 180)) obs_old_change]
             (Fin 7) 1 3)
          [SelectNone; SelectOlderThan 30; ToggleCandidate 7]
  /\ In 7%Z (candidate_ids
               (ShrinkAnalysis.mk [candidate_of sample_now (days_to_ms (Fin 180)) obs_old_change]
                  (Fin 7) 1 3)).
Proof.
  assert (Hsel : 7%Z ∈ selection_after sample_now
            (ShrinkAnalysis.mk [candidate_of sample_now (days_to_ms (Fin 180)) obs_old_change]
               (Fin 7) 1 3)
            [SelectNone; SelectOlderThan 30; ToggleCandidate 7]).
  { apply (bool_decide_unpack _). vm_compute. exact I. }
  split; [exact Hsel|].
  apply (selection_within_candidates sample_now
           (ShrinkAnalysis.mk [candidate_of sample_now (days_to_ms (Fin 180)) obs_old_change]
              (Fin 7) 1 3)
           [SelectNone; SelectOlderThan 30; ToggleCandidate 7]).
  - repeat constructor.
  - exact Hsel.
Defined.

(** Executing the selection made in the dialog, in whatever order its
    identifiers are sent, deletes every selected observation and fails on
    none, when identifiers are unique and the store is the one analysed. *)
Theorem execute_selection_never_fails :
  forall (sessionStore : SessionStore) (now now_ms : Z) (options : ShrinkOptions)
         (r : ShrinkAnalysis) (actions : list selection_action) (observationIds : list Z),
    unique_ids sessionStore ->
    analyze sessionStore now options = Ok r ->
    Forall (offered r) actions ->
    List.NoDup observationIds ->
    (forall id, In id observationIds <-> id ∈ selection_after now_ms r actions) ->
    fst (executeShrink sessionStore observationIds)
    = {| deleted := size (selection_after now_ms r actions); failed := 0 |}.
Proof.
  intros store now now_ms options r actions ids Hu Hr Hoff Hnd Hids.
  assert (Hsize : size (selection_after now_ms r actions) = length ids).
  { unfold size, set_size. cbn. apply Permutation_length.
    apply NoDup_Permutation.
    - apply NoDup_elements.
    - now apply NoDup_ListNoDup.
    - intros x. rewrite elem_of_elements, list_elem_of_In. symmetry. apply Hids. }
  rewrite Hsize. apply executeShrink_all_present; [exact Hnd|].
  intros id Hid. apply Hids in Hid.
  apply (selection_after_within now_ms r actions Hoff) in Hid.
  unfold candidate_ids in Hid. apply in_map_iff in Hid as (c & <- & Hc).
  apply (candidates_from_pool _ _ _ _ Hr) in Hc.
  destruct (candidate_pool_origin _ _ _ _ Hc) as (obs & Hin & _ & -> & _).
  unfold candidate_of. fields. now apply In_has_id.
Qed.

Lemma execute_selection_never_fails_witness :
  exists r,
    analyze sample_store sample_now sample_options = Ok r
    /\ fst (executeShrink sample_store (candidate_ids r))
       = {| deleted := size (selection_after sample_now r [SelectNone; SelectAll]);
            failed := 0 |}.
Proof.
  assert (Hu : unique_ids sample_store).
  { unfold unique_ids. cbn. repeat constructor; cbn; intuition discriminate. }
  destruct (analyze sample_store sample_now sample_options) as [r|e] eqn:E.
  - exists r. split; [reflexivity|].
    apply (execute_selection_never_fails sample_store sample_now sample_now sample_options r
             [SelectNone; SelectAll] (candidate_ids r) Hu E).
    + repeat constructor.
    + exact (candidate_ids_unique sample_store sample_now sample_options r Hu E).
    + intros id. cbn. rewrite elem_of_list_to_set, list_elem_of_In. reflexivity.
  - vm_compute in E. discriminate E.
Defined.

End SelectionWorkflow.

(** * Project switches *)

Section ProjectExclusionProperties.

(** A switch flips that project and no other, and flipping it twice
    restores the set of excluded projects. *)
Theorem toggleProject_flips_one :
  forall (project : jsstring) (excludedProjects : gset jsstring),
    isExcluded (toggleProject project excludedProjects) project
    = negb (isExcluded excludedProjects project)
    /\ (forall other, other <> project ->
          isExcluded (toggleProject project excludedProjects) other
          = isExcluded excludedProjects other)
    /\ toggleProject project (toggleProject project excludedProjects) = excludedProjects.
Proof.
  intros p s. unfold toggleProject, isExcluded.
  destruct (decide (p ∈ s)) as [Hin|Hout].
  - split; [|split].
    + rewrite (bool_decide_eq_true_2 _ Hin). apply bool_decide_eq_false.
      rewrite elem_of_difference, elem_of_singleton. tauto.
    + intros other Hne. apply bool_decide_ext.
      rewrite elem_of_difference, elem_of_singleton. tauto.
    + rewrite decide_False by (rewrite elem_of_difference, elem_of_singleton; tauto).
      apply set_eq. intros x.
      rewrite elem_of_union, elem_of_difference, elem_of_singleton.
      destruct (decide (x = p)) as [->|]; tauto.
  - split; [|split].
    + rewrite (bool_decide_eq_false_2 _ Hout). apply bool_decide_eq_true.
      rewrite elem_of_union, elem_of_singleton. tauto.
    + intros other Hne. apply bool_decide_ext.
      rewrite elem_of_union, elem_of_singleton. tauto.
    + rewrite decide_True by (rewrite elem_of_union, elem_of_singleton; tauto).
      apply set_eq. intros x.
      rewrite elem_of_difference, elem_of_union, elem_of_singleton.
      destruct (decide (x = p)) as [->|]; tauto.
Qed.

Lemma enabledCount_le (projects : list jsstring) (excludedProjects : gset jsstring) :
  (enabledCount projects excludedProjects <= length projects)%nat.
Proof. unfold enabledCount. apply List.filter_length_le. Qed.

(** "Disable All" leaves no listed project enabled, "Enable All" enables
    every one, and the count shown never exceeds the number of projects. *)
Theorem enabledCount_after_all :
  forall (projects : list jsstring) (excludedProjects : gset jsstring),
    enabledCount projects (disableAll projects) = 0%nat
    /\ enabledCount projects enableAll = length projects
    /\ (enabledCount projects excludedProjects <= length projects)%nat.
Proof.
  intros projects s. unfold enabledCount, disableAll, enableAll. split; [|split].
  - rewrite filter_none; [reflexivity|]. intros p Hp. apply negb_false_iff.
    apply bool_decide_eq_true. now apply elem_of_list_to_set, list_elem_of_In.
  - f_equal. apply filter_keeps_all. apply not_true_iff_false. intros H.
    apply existsb_exists in H as (p & _ & H). rewrite negb_involutive in H.
    apply bool_decide_eq_true in H. now apply elem_of_empty in H.
  - apply List.filter_length_le.
Qed.

(** Switching a project off lowers the enabled count by the number of times
    the project is listed, and switching it on raises it by as much. *)
Theorem toggleProject_enabledCount :
  forall (projects : list jsstring) (project : jsstring) (excludedProjects : gset jsstring),
    let listed := length (List.filter (fun p => bool_decide (p = project)) projects) in
    if isExcluded excludedProjects project
    then enabledCount projects (toggleProject project excludedProjects)
         = (enabledCount projects excludedProjects + listed)%nat
    else (enabledCount projects (toggleProject project excludedProjects) + listed)%nat
         = enabledCount projects excludedProjects.
Proof.
  intros projects p s listed. unfold listed, isExcluded, toggleProject, enabledCount.
  clear listed.
  destruct (decide (p ∈ s)) as [Hin|Hout].
  - rewrite (bool_decide_eq_true_2 _ Hin).
    induction projects as [|q projects IH]; [reflexivity|]. cbv zeta in IH.
    cbn [List.filter].
    destruct (decide (q = p)) as [->|Hne].
    + rewrite (bool_decide_eq_true_2 (p = p) eq_refl), (bool_decide_eq_true_2 _ Hin).
      rewrite bool_decide_eq_false_2
        by (rewrite elem_of_difference, elem_of_singleton; tauto).
      cbn. lia.
    + rewrite (bool_decide_eq_false_2 (q = p) Hne).
      rewrite (bool_decide_ext (q ∈ s ∖ {[p]}) (q ∈ s))
        by (rewrite elem_of_difference, elem_of_singleton; tauto).
      destruct (bool_decide (q ∈ s)); cbn; lia.
  - rewrite (bool_decide_eq_false_2 _ Hout).
    induction projects as [|q projects IH]; [reflexivity|]. cbv zeta in IH.
    cbn [List.filter].
    destruct (decide (q = p)) as [->|Hne].
    + rewrite (bool_decide_eq_true_2 (p = p) eq_refl), (bool_decide_eq_false_2 _ Hout).
      rewrite bool_decide_eq_true_2 by (rewrite elem_of_union, elem_of_singleton; tauto).
      cbn. lia.
    + rewrite (bool_decide_eq_false_2 (q = p) Hne).
      rewrite (bool_decide_ext (q ∈ s ∪ {[p]}) (q ∈ s))
        by (rewrite elem_of_union, elem_of_singleton; tauto).
      destruct (bool_decide (q ∈ s)); cbn; lia.
Qed.

End ProjectExclusionProperties.

(** ** The stored project switches *)

Section ExclusionPersistence.

Lemma lex_literal (acc s : jsstring) (c : N) :
  (32 <= c)%N -> c <> 34%N -> c <> 92%N ->
  lex (Some acc) (c :: s) = lex (Some (c :: acc)) s.
Proof.
  intros H32 Hq Hb. cbn [lex].
  change (code "\") with 92%N. change quote with 34%N.
  rewrite (proj2 (N.eqb_neq c 34)), (proj2 (N.eqb_neq c 92)) by assumption.
  now rewrite (proj2 (N.ltb_ge c 32)) by assumption.
Qed.

Lemma hex_digit_hex_char (d : N) :
  (d < 16)%N -> hex_digit (hex_char d) = Some d.
Proof.
  intros Hd. unfold hex_char, hex_digit.
  destruct (N.ltb_spec d 10) as [Hlt|Hge].
  - replace ((48 <=? 48 + d) && (48 + d <=? 57))%N with true.
    + f_equal. lia.
    + symmetry. apply andb_true_iff. split; apply N.leb_le; lia.
  - replace ((48 <=? 87 + d) && (87 + d <=? 57))%N with false.
    + replace ((65 <=? 87 + d) && (87 + d <=? 70))%N with false.
      * replace ((97 <=? 87 + d) && (87 + d <=? 102))%N with true.
        -- f_equal. lia.
        -- symmetry. apply andb_true_iff. split; apply N.leb_le; lia.
      * symmetry. apply andb_false_iff. right. apply N.leb_gt. lia.
    + symmetry. apply andb_false_iff. right. apply N.leb_gt. lia.
Qed.

Lemma hex_recombine (c : N) :
  (c < 65536)%N ->
  (c / 4096 * 4096 + (c / 256) mod 16 * 256 + (c / 16) mod 16 * 16 + c mod 16 = c
   /\ c / 4096 < 16)%N.
Proof. intros Hc. zify. Z.to_euclidean_division_equations. lia. Qed.

Lemma lex_unicode_escape (acc s : jsstring) (c : N) :
  (c < 65536)%N ->
  lex (Some acc) (unicode_escape c ++ s) = lex (Some (c :: acc)) s.
Proof.
  intros Hc. destruct (hex_recombine c Hc) as [Heq Hhi].
  unfold unicode_escape. cbn [app lex].
  change (code "\") with 92%N. change (code "u") with 117%N.
  change (92 =? quote)%N with false. change (92 =? 92)%N with true.
  change (simple_escape 117) with (@None N). change (117 =? 117)%N with true.
  cbv iota.
  rewrite !hex_digit_hex_char by (assumption || apply N.mod_lt; discriminate).
  now rewrite Heq.
Qed.

Lemma short_escape_inv (c e : N) :
  short_escape c = Some e -> simple_escape e = Some c.
Proof.
  unfold short_escape.
  repeat match goal with
         | |- context [(c =? ?k)%N] =>
             destruct (N.eqb_spec c k) as [->|?];
             [intros [= <-]; reflexivity|]
         end.
  discriminate.
Qed.

Lemma short_escape_none (c : N) :
  short_escape c = None -> c <> 34%N /\ c <> 92%N.
Proof. intros H. split; intros ->; discriminate. Qed.

Lemma lex_quote_body (n : nat) :
  forall (s acc rest : jsstring),
    (length s <= n)%nat ->
    lex (Some acc) (quote_body s ++ quote :: rest)
    = cons (Str (rev acc ++ s)) <$> lex None rest.
Proof.
  induction n as [|n IH]; intros s acc rest Hlen.
  - destruct s; [|cbn in Hlen; lia]. cbn [quote_body app lex].
    rewrite N.eqb_refl. now rewrite app_nil_r.
  - destruct s as [|c s]; [cbn [quote_body app lex]; rewrite N.eqb_refl; now rewrite app_nil_r|].
    cbn [length] in Hlen.
    assert (Hstep : forall t, rev acc ++ c :: t = rev (c :: acc) ++ t)
      by (intros t; cbn [rev]; now rewrite <- app_assoc).
    cbn [quote_body]. destruct (short_escape c) as [e|] eqn:Hshort.
    + apply short_escape_inv in Hshort. cbn [app lex].
      change (code "\") with 92%N. change (92 =? quote)%N with false.
      change (92 =? 92)%N with true. cbv iota. rewrite Hshort, Hstep.
      apply IH. lia.
    + apply short_escape_none in Hshort as [Hq Hb].
      unfold is_high_surrogate, is_low_surrogate.
      destruct (N.leb_spec 55296 c) as [Hh1|Hh1]; [destruct (N.leb_spec c 56319) as [Hh2|Hh2]|];
        cbn [andb].
      * destruct s as [|c2 s].
        -- rewrite lex_unicode_escape by lia. rewrite Hstep. apply (IH []). cbn; lia.
        -- destruct (N.leb_spec 56320 c2) as [Hl1|Hl1];
             [destruct (N.leb_spec c2 57343) as [Hl2|Hl2]|]; cbn [andb].
           ++ cbn [app]. rewrite !lex_literal by lia.
              replace (rev acc ++ c :: c2 :: s) with (rev (c2 :: c :: acc) ++ s)
                by (cbn [rev]; now rewrite <- !app_assoc).
              apply IH. cbn [length] in Hlen. lia.
           ++ rewrite <- app_assoc, lex_unicode_escape by lia. rewrite Hstep. apply IH. lia.
           ++ rewrite <- app_assoc, lex_unicode_escape by lia. rewrite Hstep. apply IH. lia.
      * destruct (N.leb_spec 56320 c) as [Hl1|Hl1]; [|lia].
        destruct (N.leb_spec c 57343) as [Hl2|Hl2]; cbn [andb orb].
        -- rewrite <- app_assoc, lex_unicode_escape by lia. rewrite Hstep. apply IH. lia.
        -- destruct (N.ltb_spec c 32) as [Hlt|Hge]; [lia|].
           cbn [app]. rewrite lex_literal by lia. rewrite Hstep. apply IH. lia.
      * destruct (N.leb_spec 56320 c) as [Hl1|Hl1]; [lia|]. cbn [andb orb].
        destruct (N.ltb_spec c 32) as [Hlt|Hge].
        -- rewrite <- app_assoc, lex_unicode_escape by lia. rewrite Hstep. apply IH. lia.
        -- cbn [app]. rewrite lex_literal by lia. rewrite Hstep. apply IH. lia.
Qed.

Lemma lex_QuoteJSONString (s rest : jsstring) :
  lex None (QuoteJSONString s ++ rest) = cons (Str s) <$> lex None rest.
Proof.
  unfold QuoteJSONString. cbn [app lex].
  change (is_ws quote) with false. change (quote =? code "[")%N with false.
  change (quote =? code "]")%N with false. change (quote =? code ",")%N with false.
  rewrite N.eqb_refl. cbv iota. rewrite <- app_assoc. cbn [app].
  apply (lex_quote_body (length s) s [] rest (le_n _)).
Qed.

Lemma lex_join_commas (s : jsstring) (strings : list jsstring) :
  lex None (join_commas (map QuoteJSONString (s :: strings)) ++ js "]")
  = Some (Str s :: flat_map (fun t => [Comma; Str t]) strings ++ [RBrack]).
Proof.
  revert s. induction strings as [|t strings IH]; intros s.
  - cbn [map join_commas flat_map app]. now rewrite lex_QuoteJSONString.
  - change (join_commas (map QuoteJSONString (s :: t :: strings)))
      with (QuoteJSONString s ++ code "," :: join_commas (map QuoteJSONString (t :: strings))).
    rewrite <- app_assoc, lex_QuoteJSONString. rewrite <- app_comm_cons.
    change (lex None (code "," :: ?x)) with (cons Comma <$> lex None x).
    now rewrite IH.
Qed.

Lemma parse_items_flat_map (strings : list jsstring) :
  parse_items (flat_map (fun t => [Comma; Str t]) strings ++ [RBrack]) = Some strings.
Proof.
  induction strings as [|t strings IH]; [reflexivity|].
  cbn [flat_map app parse_items]. now rewrite IH.
Qed.

Lemma JSON_parse_stringify (strings : list jsstring) :
  JSON_parse (JSON_stringify strings) = Some strings.
Proof.
  unfold JSON_parse, JSON_stringify. destruct strings as [|s strings]; [reflexivity|].
  change (js "[" ++ ?x) with (code "[" :: x).
  change (lex None (code "[" :: ?x)) with (cons LBrack <$> lex None x).
  rewrite lex_join_commas. cbn. now rewrite parse_items_flat_map.
Qed.

(** What the viewer stores on every change of the set of switched-off
    projects is read back as the same set when the viewer is opened again,
    whatever characters the project names hold and in whatever order the
    set lists them; with nothing stored, or an empty value, the viewer
    starts with no project switched off. *)
Theorem exclusions_survive_reload :
  (forall projects : list jsstring,
      initial_exclusions (Some (JSON_stringify projects)) = list_to_set projects)
  /\ (forall excludedProjects : gset jsstring,
        initial_exclusions (Some (stored_exclusions excludedProjects)) = excludedProjects)
  /\ initial_exclusions None = ∅
  /\ initial_exclusions (Some []) = ∅.
Proof.
  assert (Hread : forall projects : list jsstring,
             initial_exclusions (Some (JSON_stringify projects)) = list_to_set projects).
  { intros l. unfold initial_exclusions.
    change (default [] (Some ?t)) with t. rewrite JSON_parse_stringify.
    reflexivity. }
  split; [exact Hread|split; [|split; reflexivity]].
  intros s. unfold stored_exclusions. rewrite Hread.
  apply leibniz_equiv. apply list_to_set_elements.
Qed.

End ExclusionPersistence.
